(** * pp_ser: expansion of !$SER serialization directives

    A shallow embedding of [src/python/pp_ser.py] (class [pp_ser]) and the
    properties of its two-pass transform.

    Conventions of the embedding:
    - text is ASCII ([toASCII] is applied to the output buffer), so a Python
      [str] is a [string] of 8-bit characters; [upper]/[lower] act on the
      letters A-Z/a-z only;
    - the private attribute [self.__x] is the field [p_x] of [state];
    - [__exit_error] (print a report, then [sys.exit(1)]) is the result
      [Exit report]; an uncaught Python exception is [Raise exn];
    - each regular expression of the source is a matcher written out by
      hand, documented with the pattern it implements (in these comments a
      capture group is written with braces, [{...}], and a group that does
      not capture with [{?:...}]);
    - the iteration order of the Python [set] holding the calls is not fixed
      by the language: it is the parameter [iter] of the engine. *)

From Stdlib Require Import Ascii String.
From stdpp Require Import gmap strings list pretty.

(** ** Characters *)

Definition NLc : ascii := "010".
Definition CRc : ascii := "013".
Definition DQc : ascii := "034".
Definition SQc : ascii := "039".

Definition NL : string := String NLc EmptyString.
Definition CR : string := String CRc EmptyString.
Definition DQ : string := String DQc EmptyString.

Definition is_upper_c (c : ascii) : bool :=
  (65 <=? nat_of_ascii c)%nat && (nat_of_ascii c <=? 90)%nat.
Definition is_lower_c (c : ascii) : bool :=
  (97 <=? nat_of_ascii c)%nat && (nat_of_ascii c <=? 122)%nat.
Definition is_digit_c (c : ascii) : bool :=
  (48 <=? nat_of_ascii c)%nat && (nat_of_ascii c <=? 57)%nat.

Definition upper_c (c : ascii) : ascii :=
  if is_lower_c c then ascii_of_nat (nat_of_ascii c - 32) else c.
Definition lower_c (c : ascii) : ascii :=
  if is_upper_c c then ascii_of_nat (nat_of_ascii c + 32) else c.

(** [str.isspace] on one ASCII character, also the class [\s]:
    TAB, LF, VT, FF, CR, FS, GS, RS, US and the space. *)
Definition is_space_c (c : ascii) : bool :=
  let n := nat_of_ascii c in
  ((9 <=? n)%nat && (n <=? 13)%nat) || ((28 <=? n)%nat && (n <=? 32)%nat).

(** Equality of two characters under [re.IGNORECASE]. *)
Definition eq_ci (a b : ascii) : bool := Ascii.eqb (lower_c a) (lower_c b).

(** The class [[a-zA-Z_0-9]], which is also [[a-z0-9_]] under
    [re.IGNORECASE]. *)
Definition is_word_c (c : ascii) : bool :=
  is_lower_c c || is_upper_c c || is_digit_c c || Ascii.eqb c "_".

Definition is_alpha_c (c : ascii) : bool := is_lower_c c || is_upper_c c.

(** ** Strings *)

Fixpoint smap (f : ascii → ascii) (s : string) : string :=
  match s with
  | EmptyString => EmptyString
  | String c r => String (f c) (smap f r)
  end.

Definition upper : string → string := smap upper_c.
Definition lower : string → string := smap lower_c.

(** Truth value of a [str]: non-empty. *)
Definition truthy (s : string) : bool :=
  match s with EmptyString => false | _ => true end.

(** [sep.join(l)] *)
Fixpoint join (sep : string) (l : list string) : string :=
  match l with
  | [] => EmptyString
  | [x] => x
  | x :: r => x +:+ sep +:+ join sep r
  end.

Fixpoint sconcat (l : list string) : string :=
  match l with
  | [] => EmptyString
  | x :: r => x +:+ sconcat r
  end.

(** [s.startswith(p)] *)
Fixpoint startswith (p s : string) : bool :=
  match p, s with
  | EmptyString, _ => true
  | String a p', String b s' => Ascii.eqb a b && startswith p' s'
  | String _ _, EmptyString => false
  end.

(** [c in s] for a one-character needle. *)
Fixpoint has_char (c : ascii) (s : string) : bool :=
  match s with
  | EmptyString => false
  | String d r => Ascii.eqb c d || has_char c r
  end.

Fixpoint skip_spaces (s : string) : string :=
  match s with
  | String " " r => skip_spaces r
  | _ => s
  end.

(** Leading characters of a class, and what follows them. *)
Fixpoint take_while (p : ascii → bool) (s : string) : string :=
  match s with
  | String c r => if p c then String c (take_while p r) else EmptyString
  | EmptyString => EmptyString
  end.

Fixpoint drop_while (p : ascii → bool) (s : string) : string :=
  match s with
  | String c r => if p c then drop_while p r else s
  | EmptyString => EmptyString
  end.

Fixpoint sdrop (n : nat) (s : string) : string :=
  match n, s with
  | S n', String _ r => sdrop n' r
  | _, _ => s
  end.

Fixpoint stake (n : nat) (s : string) : string :=
  match n, s with
  | S n', String c r => String c (stake n' r)
  | _, _ => EmptyString
  end.

(** [s.rstrip()], [s.lstrip()], [s.strip()] *)
Fixpoint rstrip (s : string) : string :=
  match s with
  | EmptyString => EmptyString
  | String c r =>
      match rstrip r with
      | EmptyString => if is_space_c c then EmptyString else String c EmptyString
      | r' => String c r'
      end
  end.

Definition lstrip (s : string) : string := drop_while is_space_c s.
Definition strip (s : string) : string := rstrip (lstrip s).

(** [s.replace(' ', '')] *)
Fixpoint remove_spaces (s : string) : string :=
  match s with
  | EmptyString => EmptyString
  | String c r => if Ascii.eqb c " " then remove_spaces r else String c (remove_spaces r)
  end.

(** Puts a character in front of the first piece of a split. *)
Definition cons_head (c : ascii) (l : list string) : list string :=
  match l with
  | h :: t => String c h :: t
  | [] => [String c EmptyString]
  end.

(** [s.split(c)] for a one-character separator. *)
Fixpoint split_char (sep : ascii) (s : string) : list string :=
  match s with
  | EmptyString => [EmptyString]
  | String c r =>
      if Ascii.eqb c sep then EmptyString :: split_char sep r
      else cons_head c (split_char sep r)
  end.

(** [s.split('::')] *)
Fixpoint split_dcolon (s : string) : list string :=
  match s with
  | EmptyString => [EmptyString]
  | String c r =>
      match c, r with
      | ":"%char, String ":" r' => EmptyString :: split_dcolon r'
      | _, _ => cons_head c (split_dcolon r)
      end
  end.

(** What the text layer of [open(infile, 'r')] delivers under Python 3
    (universal newlines): a carriage return followed by a line feed, and a
    carriage return alone, are read as one line feed. *)
Fixpoint universal_newlines (s : string) : string :=
  match s with
  | EmptyString => EmptyString
  | String c r =>
      if Ascii.eqb c CRc then
        match r with
        | String d _ =>
            if Ascii.eqb d NLc then universal_newlines r
            else String NLc (universal_newlines r)
        | EmptyString => NL
        end
      else String c (universal_newlines r)
  end.

(** The pieces the iterator cuts a text into: each ends with its line feed,
    the last one may lack it; an empty text yields nothing. *)
Fixpoint iter_lines (s : string) : list string :=
  match s with
  | EmptyString => []
  | String c r =>
      if Ascii.eqb c NLc then String c EmptyString :: iter_lines r
      else cons_head c (iter_lines r)
  end.

(** The lines [for line in input_file] yields for a file of content [s]. *)
Definition readlines (s : string) : list string :=
  iter_lines (universal_newlines s).


(** ** The regular expressions of the source

    Every pattern below is matched the way Python's backtracking matcher
    does; where the pattern leaves no choice (a greedy run followed by a
    character outside the run), the matcher is written without search. *)

(** A literal at the start of [s] under [re.IGNORECASE]; gives the rest. *)
Fixpoint strip_prefix_ci (p s : string) : option string :=
  match p, s with
  | EmptyString, _ => Some s
  | String a p', String b s' => if eq_ci a b then strip_prefix_ci p' s' else None
  | String _ _, EmptyString => None
  end.

(** The same, case-sensitive. *)
Fixpoint strip_prefix (p s : string) : option string :=
  match p, s with
  | EmptyString, _ => Some s
  | String a p', String b s' => if Ascii.eqb a b then strip_prefix p' s' else None
  | String _ _, EmptyString => None
  end.

(** [re.sub(pattern, '', s)] for a pattern without empty matches: [m s] is
    the length of the leftmost match of the pattern at the start of [s];
    [skip] characters of an ongoing match remain to be dropped. *)
Fixpoint sub_delete (m : string → option nat) (s : string) (skip : nat) : string :=
  match s with
  | EmptyString => EmptyString
  | String c r =>
      match skip with
      | S k => sub_delete m r k
      | O =>
          match m s with
          | Some (S k) => sub_delete m r k
          | _ => String c (sub_delete m r 0)
          end
      end
  end.

(** [{.*}$] against all of [s]: the group, when [s] holds no line feed
    other than a last one. *)
Fixpoint upto_dollar (s : string) : option string :=
  match s with
  | EmptyString => Some EmptyString
  | String c r =>
      if Ascii.eqb c NLc then
        match r with EmptyString => Some EmptyString | _ => None end
      else option_map (String c) (upto_dollar r)
  end.

(** [^ *!\$ser] with [re.IGNORECASE]; gives what follows the marker. *)
Definition ser_prefix (s : string) : option string :=
  strip_prefix_ci "!$ser" (skip_spaces s).

(** [r1 = ^ *!\$ser *{.*}$] with [re.IGNORECASE]: group 1. *)
Definition re_ser_match (s : string) : option string :=
  match ser_prefix s with
  | Some r => upto_dollar (skip_spaces r)
  | None => None
  end.

Fixpoint all_spaces (s : string) : bool :=
  match s with
  | EmptyString => true
  | String c r => Ascii.eqb c " " && all_spaces r
  end.

(** Some suffix of [s] is [ &] followed by spaces only. *)
Fixpoint has_amp_tail (s : string) : bool :=
  match s with
  | EmptyString => false
  | String c r =>
      (Ascii.eqb c " " &&
       match r with String d r' => Ascii.eqb d "&" && all_spaces r' | _ => false end)
      || has_amp_tail r
  end.

(** [re.match('^ *!\$ser *{.*} & *$', s, re.IGNORECASE)]: a directive line
    that is continued on the next physical line. *)
Definition re_cont_out (s : string) : bool :=
  match ser_prefix s with
  | Some r => match upto_dollar r with Some b => has_amp_tail b | None => false end
  | None => false
  end.

(** [ +& *$] at the start of [s]; gives what follows the match (nothing, or
    the last line feed). *)
Definition amp_tail (s : string) : option string :=
  match s with
  | String c r =>
      if Ascii.eqb c " " then
        match skip_spaces r with
        | String d r' =>
            if Ascii.eqb d "&" then
              match skip_spaces r' with
              | EmptyString => Some EmptyString
              | String e EmptyString => if Ascii.eqb e NLc then Some NL else None
              | _ => None
              end
            else None
        | EmptyString => None
        end
      else None
  | EmptyString => None
  end.

(** [re.sub(' +& *$', '', s, re.IGNORECASE)]: the flag sits in the place of
    [count] (so at most two replacements, case-sensitive); after the first
    match only a line feed can remain, so there is no second one. *)
Fixpoint chop_amp (s : string) : string :=
  match s with
  | EmptyString => EmptyString
  | String c r =>
      match amp_tail s with
      | Some t => t
      | None => String c (chop_amp r)
      end
  end.

(** [re.match('^ *!\$ser& ', s, re.IGNORECASE)]: a continuation line. *)
Definition re_cont_in (s : string) : bool :=
  match strip_prefix_ci "!$ser& " (skip_spaces s) with
  | Some _ => true
  | None => false
  end.

(** [re.sub('^ *!\$ser& *', ' ', s, re.IGNORECASE)]: here too the flag sits
    in the place of [count], so the pattern is matched case-sensitively. *)
Definition sub_cont_in (s : string) : string :=
  match strip_prefix "!$ser&" (skip_spaces s) with
  | Some r => String " " (skip_spaces r)
  | None => s
  end.

(** [^ *implicit +none] with [re.IGNORECASE]. *)
Definition re_implicit_match (s : string) : bool :=
  match strip_prefix_ci "implicit" (skip_spaces s) with
  | Some (String " " r) =>
      match strip_prefix_ci "none" (skip_spaces r) with
      | Some _ => true
      | None => false
      end
  | _ => false
  end.

(** [{module|program}] with [re.IGNORECASE]: the text matched and the rest. *)
Definition unit_kw (s : string) : option (string * string) :=
  match strip_prefix_ci "module" s with
  | Some r => Some (stake 6 s, r)
  | None =>
      match strip_prefix_ci "program" s with
      | Some r => Some (stake 7 s, r)
      | None => None
      end
  end.

(** [{[a-z][a-z0-9_]*}] with [re.IGNORECASE] at the start of [s]. *)
Definition ident (s : string) : option string :=
  match s with
  | String c r => if is_alpha_c c then Some (String c (take_while is_word_c r)) else None
  | EmptyString => None
  end.

(** [^ *{module|program} +{[a-z][a-z0-9_]*}] with [re.IGNORECASE]:
    groups 1 and 2. *)
Definition re_module_match (s : string) : option (string * string) :=
  match unit_kw (skip_spaces s) with
  | Some (g1, String " " r) =>
      match ident (skip_spaces r) with
      | Some g2 => Some (g1, g2)
      | None => None
      end
  | _ => None
  end.

(** [^ *end *{module|program} {[a-z][a-z0-9_]*}] with [re.IGNORECASE]:
    groups 1 and 2. *)
Definition re_endmodule_match (s : string) : option (string * string) :=
  match strip_prefix_ci "end" (skip_spaces s) with
  | Some r =>
      match unit_kw (skip_spaces r) with
      | Some (g1, String " " r') =>
          match ident r' with
          | Some g2 => Some (g1, g2)
          | None => None
          end
      | _ => None
      end
  | None => None
  end.

(** [intent *\(in\)[^:]*::\s+] with [re.IGNORECASE] at the start of [s]:
    the run [[^:]*] stops at the first colon, where [::] and a blank must
    follow. *)
Definition def_at (s : string) : bool :=
  match strip_prefix_ci "intent" s with
  | Some r =>
      match strip_prefix_ci "(in)" (skip_spaces r) with
      | Some r' =>
          match drop_while (λ c, negb (Ascii.eqb c ":")) r' with
          | String _ (String ":" (String w _)) => is_space_c w
          | _ => false
          end
      | None => false
      end
  | None => false
  end.

(** [re.search('.*intent *\(in\)[^:]*::\s+{.*}', s, re.IGNORECASE)] finds
    a match exactly when [intent ...] matches at some position: the search
    may start there and the last group may be empty. *)
Fixpoint re_def_match (s : string) : bool :=
  match s with
  | EmptyString => false
  | String _ r => def_at s || re_def_match r
  end.

(** The lookahead [[^(]*\)]: a closing parenthesis comes before any opening
    one. *)
Fixpoint closes_first (s : string) : bool :=
  match s with
  | EmptyString => false
  | String c r =>
      if Ascii.eqb c ")" then true
      else if Ascii.eqb c "(" then false
      else closes_first r
  end.

(** [re.split(r',(?![^(]*\))', s)]: the commas outside parentheses. *)
Fixpoint split_commas (s : string) : list string :=
  match s with
  | EmptyString => [EmptyString]
  | String c r =>
      if Ascii.eqb c "," && negb (closes_first r) then EmptyString :: split_commas r
      else cons_head c (split_commas r)
  end.

(** Position of the first [)] of [s] before any line feed. *)
Fixpoint first_close (s : string) : option nat :=
  match s with
  | EmptyString => None
  | String c r =>
      if Ascii.eqb c ")" then Some 0
      else if Ascii.eqb c NLc then None
      else option_map S (first_close r)
  end.

(** Position of the last [)] of [s] before any line feed. *)
Fixpoint last_close (s : string) : option nat :=
  match s with
  | EmptyString => None
  | String c r =>
      if Ascii.eqb c NLc then None
      else
        match last_close r with
        | Some n => Some (S n)
        | None => if Ascii.eqb c ")" then Some 0 else None
        end
  end.

(** [\(.*?\)] at the start of [s]: length of the match. *)
Definition paren_lazy (s : string) : option nat :=
  match s with
  | String "(" r => option_map (λ n, n + 2) (first_close r)
  | _ => None
  end.

(** [\(.+\)] at the start of [s]: length of the match. *)
Definition paren_greedy (s : string) : option nat :=
  match s with
  | String "(" (String c r) =>
      if Ascii.eqb c NLc then None else option_map (λ n, n + 3) (last_close r)
  | _ => None
  end.

(** [, *intent *\(in\)] with [re.IGNORECASE] at the start of [s]: length of
    the match. *)
Definition comma_intent (s : string) : option nat :=
  match s with
  | String "," r =>
      match strip_prefix_ci "intent" (skip_spaces r) with
      | Some r1 =>
          match strip_prefix_ci "(in)" (skip_spaces r1) with
          | Some r2 => Some (String.length s - String.length r2)
          | None => None
          end
      | None => None
      end
  | _ => None
  end.

(** [re.match('{^$|[IJK][IJK1-9]*}', s)]: the empty string (or a lone line
    feed), or a first letter I, J or K. *)
Definition re_shortcut_match (s : string) : bool :=
  match s with
  | EmptyString => true
  | String c r =>
      (Ascii.eqb c NLc && negb (truthy r))
      || Ascii.eqb c "I" || Ascii.eqb c "J" || Ascii.eqb c "K"
  end.

(** *** The argument tokenizer

    [r2 = {{?:[^ DQ']|DQ[^DQ]*DQ|'[^']*'}+}] where DQ stands for the double
    quote; [r2.split(s)[1::2]] lists the matches of [r2] in [s]. A token is
    a longest run of characters other than space and quotes and of quoted
    stretches; a quote that is never closed separates tokens. *)

Definition is_quote_c (c : ascii) : bool := Ascii.eqb c DQc || Ascii.eqb c SQc.

Definition push (t : string) (ts : list string) : list string :=
  if truthy t then t :: ts else ts.

(** [tok s q] gives the rest of the token in progress at the start of [s]
    and the tokens after it; [q] is the quote of the quoted stretch the scan
    is in (its closing quote is known to exist). *)
Fixpoint tok (s : string) (q : option ascii) : string * list string :=
  match s with
  | EmptyString => (EmptyString, [])
  | String c r =>
      match q with
      | Some d =>
          let '(t, ts) := tok r (if Ascii.eqb c d then None else Some d) in
          (String c t, ts)
      | None =>
          if is_quote_c c && has_char c r then
            let '(t, ts) := tok r (Some c) in (String c t, ts)
          else if is_quote_c c || Ascii.eqb c " " then
            let '(t, ts) := tok r None in (EmptyString, push t ts)
          else
            let '(t, ts) := tok r None in (String c t, ts)
      end
  end.

Definition tokenize (s : string) : list string :=
  let '(t, ts) := tok s None in push t ts.

(** *** The tracer specification

    [^{[a-zA-Z_0-9]+|\$[a-zA-Z_0-9\(\)]+{?:-[a-zA-Z_0-9\(\)]+}?|%all}]
    then [{?:#{tens|bd|surf|sedimvel}}?] then [{?:@{[a-zA-Z_0-9]+}}?],
    without flags. After the first group nothing can fail, so the optional
    parts are taken when they match. *)

Definition is_idx_c (c : ascii) : bool :=
  is_word_c c || Ascii.eqb c "(" || Ascii.eqb c ")".

(** First group: the text matched and the rest. *)
Definition tracer_name (s : string) : option (string * string) :=
  match take_while is_word_c s with
  | String _ _ as w => Some (w, drop_while is_word_c s)
  | EmptyString =>
      match s with
      | String "$" r =>
          match take_while is_idx_c r with
          | String _ _ as a =>
              let r1 := drop_while is_idx_c r in
              match r1 with
              | String "-" r2 =>
                  match take_while is_idx_c r2 with
                  | String _ _ as b =>
                      Some (String "$" a +:+ "-" +:+ b, drop_while is_idx_c r2)
                  | EmptyString => Some (String "$" a, r1)
                  end
              | _ => Some (String "$" a, r1)
              end
          | EmptyString => None
          end
      | _ =>
          match strip_prefix "%all" s with
          | Some r => Some ("%all", r)
          | None => None
          end
      end
  end.

Fixpoint first_prefix (alts : list string) (s : string) : option (string * string) :=
  match alts with
  | [] => None
  | a :: alts' =>
      match strip_prefix a s with
      | Some r => Some (a, r)
      | None => first_prefix alts' s
      end
  end.

(** Second group (or [None]) and the rest. *)
Definition tracer_stype (s : string) : option string * string :=
  match s with
  | String "#" r =>
      match first_prefix ["tens"; "bd"; "surf"; "sedimvel"] r with
      | Some (a, r') => (Some a, r')
      | None => (None, s)
      end
  | _ => (None, s)
  end.

(** Third group (or [None]). *)
Definition tracer_level (s : string) : option string :=
  match s with
  | String "@" r =>
      match take_while is_word_c r with
      | String _ _ as w => Some w
      | EmptyString => None
      end
  | _ => None
  end.

(** [r.search(arg)], giving [m.groups()]. *)
Definition re_tracer_match (arg : string) : option (string * option string * option string) :=
  match tracer_name arg with
  | Some (g0, r) =>
      let '(g1, r') := tracer_stype r in
      Some (g0, g1, tracer_level r')
  | None => None
  end.

(** ** Data model *)

(** The constructor arguments the engine reads ([outfile], [identical] and
    [verbose] concern the writer only). *)
Record config := Config {
  infile : string;   (* input file *)
  ifdef : string;    (* write #ifdef/#endif blocks *)
  real : string;     (* name of real type (Fortran) *)
  module : string    (* name of the Fortran module with the serialization methods *)
}.

(** What [__exit_error] prints before [sys.exit(1)]: the file and line
    number always, the directive, the message and the current line when
    they are not empty. *)
Record report := Report {
  r_file : string;
  r_linenum : nat;
  r_directive : string;
  r_msg : string;
  r_line : string
}.

(** Exceptions no handler of the source catches. *)
Inductive pyexn :=
  | KeyError (k : string)
  | IndexError.

Inductive result (A : Type) :=
  | Ok (a : A)
  | Exit (r : report)
  | Raise (e : pyexn).
Arguments Ok {A} a.
Arguments Exit {A} r.
Arguments Raise {A} e.

#[global] Instance result_ret : MRet result := λ A a, Ok a.
#[global] Instance result_bind : MBind result := λ A B f m,
  match m with
  | Ok a => f a
  | Exit r => Exit r
  | Raise e => Raise e
  end.

Record state := State {
  intentin_to_remove : list string;
  intentin_removed : list string;
  p_ser : bool;                 (* currently processing !$SER directives *)
  p_line : string;              (* current line *)
  p_linenum : nat;              (* current line number *)
  p_module : string;            (* current module *)
  p_calls : gset string;        (* calls to serialization module *)
  p_outputBuffer : string;      (* preprocessed file *)
  p_implicitnone_found : bool;  (* has a implicit none statement been found? *)
  p_implicitnone_done : bool    (* has code been inserted at IMPLICIT NONE? *)
}.

Definition set_to_remove (v : list string) (st : state) : state :=
  State v (intentin_removed st) (p_ser st) (p_line st) (p_linenum st) (p_module st)
        (p_calls st) (p_outputBuffer st) (p_implicitnone_found st) (p_implicitnone_done st).
Definition set_removed (v : list string) (st : state) : state :=
  State (intentin_to_remove st) v (p_ser st) (p_line st) (p_linenum st) (p_module st)
        (p_calls st) (p_outputBuffer st) (p_implicitnone_found st) (p_implicitnone_done st).
Definition set_ser (v : bool) (st : state) : state :=
  State (intentin_to_remove st) (intentin_removed st) v (p_line st) (p_linenum st) (p_module st)
        (p_calls st) (p_outputBuffer st) (p_implicitnone_found st) (p_implicitnone_done st).
Definition set_line (v : string) (st : state) : state :=
  State (intentin_to_remove st) (intentin_removed st) (p_ser st) v (p_linenum st) (p_module st)
        (p_calls st) (p_outputBuffer st) (p_implicitnone_found st) (p_implicitnone_done st).
Definition set_linenum (v : nat) (st : state) : state :=
  State (intentin_to_remove st) (intentin_removed st) (p_ser st) (p_line st) v (p_module st)
        (p_calls st) (p_outputBuffer st) (p_implicitnone_found st) (p_implicitnone_done st).
Definition set_module (v : string) (st : state) : state :=
  State (intentin_to_remove st) (intentin_removed st) (p_ser st) (p_line st) (p_linenum st) v
        (p_calls st) (p_outputBuffer st) (p_implicitnone_found st) (p_implicitnone_done st).
Definition set_calls (v : gset string) (st : state) : state :=
  State (intentin_to_remove st) (intentin_removed st) (p_ser st) (p_line st) (p_linenum st)
        (p_module st) v (p_outputBuffer st) (p_implicitnone_found st) (p_implicitnone_done st).
Definition set_outputBuffer (v : string) (st : state) : state :=
  State (intentin_to_remove st) (intentin_removed st) (p_ser st) (p_line st) (p_linenum st)
        (p_module st) (p_calls st) v (p_implicitnone_found st) (p_implicitnone_done st).
Definition set_found (v : bool) (st : state) : state :=
  State (intentin_to_remove st) (intentin_removed st) (p_ser st) (p_line st) (p_linenum st)
        (p_module st) (p_calls st) (p_outputBuffer st) v (p_implicitnone_done st).
Definition set_done (v : bool) (st : state) : state :=
  State (intentin_to_remove st) (intentin_removed st) (p_ser st) (p_line st) (p_linenum st)
        (p_module st) (p_calls st) (p_outputBuffer st) (p_implicitnone_found st) v.

(** [self.__calls.add(c)] *)
Definition add_call (c : string) (st : state) : state :=
  set_calls ({[c]} ∪ p_calls st) st.

(** The state [__init__] builds. *)
Definition init_state : state :=
  State [] [] false EmptyString 0 EmptyString ∅ EmptyString false false.

(** *** The tables set up by [__init__] *)

Definition methods : gmap string string :=
  list_to_map [
    ("mode", "ppser_set_mode");
    ("getmode", "ppser_get_mode");
    ("init", "ppser_initialize");
    ("cleanup", "ppser_finalize");
    ("data", "fs_write_field");
    ("datawrite", "fs_write_field");
    ("dataread", "fs_read_field");
    ("option", "fs_Option");
    ("serinfo", "fs_add_serializer_metainfo");
    ("register", "fs_register_field");
    ("registertracers", "fs_RegisterAllTracers");
    ("fieldmetainfo", "fs_AddFieldMetaInfo");
    ("savepoint", "fs_create_savepoint");
    ("spinfo", "fs_add_savepoint_metainfo");
    ("fieldinfo", "fs_add_field_metainfo");
    ("on", "fs_enable_serialization");
    ("off", "fs_disable_serialization")
  ].

(** The source lists [registertracers] and [cleanup] twice, with the same
    spellings. *)
Definition language : gmap string (list string) :=
  list_to_map [
    ("cleanup", ["CLEANUP"; "CLE"]);
    ("data", ["DATA"; "DAT"]);
    ("mode", ["MODE"; "MOD"]);
    ("init", ["INIT"; "INI"]);
    ("option", ["OPTION"; "OPT"]);
    ("metainfo", ["METAINFO"]);
    ("verbatim", ["VERBATIM"; "VER"]);
    ("register", ["REGISTER"; "REG"]);
    ("registertracers", ["REGISTERTRACERS"]);
    ("zero", ["ZERO"; "ZER"]);
    ("savepoint", ["SAVEPOINT"; "SAV"]);
    ("tracer", ["TRACER"; "TRA"]);
    ("on", ["ON"]);
    ("off", ["OFF"])
  ].

Definition modes : gmap string nat :=
  list_to_map [("write", 0); ("read", 1); ("CPU", 0); ("GPU", 1)].

(** The local table [datatypes] of [__ser_register]. *)
Definition datatypes : gmap string (list string) :=
  list_to_map [
    ("integer", ["'int'"; "ppser_intlength"]);
    ("real", ["ppser_realtype"; "ppser_reallength"])
  ].

(** [args[0].upper() in self.language[k]] *)
Definition is_kw (k : string) (a : string) : bool :=
  bool_decide (upper a ∈ language !!! k).

(** [l[i:j]] *)
Definition slice {A} (i j : nat) (l : list A) : list A := drop i (take j l).

(** [l.index(x)] when [x] is in [l]. *)
Fixpoint index_of (x : string) (l : list string) : option nat :=
  match l with
  | [] => None
  | y :: r => if String.eqb x y then Some 0 else option_map S (index_of x r)
  end.

(** ** Shortcuts for field registering *)

Definition reg_shortcuts (shortcut : string) : list string :=
  let shortcut := upper shortcut in
  if re_shortcut_match shortcut then
    if String.eqb shortcut EmptyString then
      ["1"; "1"; "1"; "1"; "0"; "0"; "0"; "0"; "0"; "0"; "0"; "0"]
    else if String.eqb shortcut "I" then
      ["ie"; "1"; "1"; "1"; "nboundlines"; "nboundlines"; "0"; "0"; "0"; "0"; "0"; "0"]
    else if String.eqb shortcut "J" then
      ["1"; "je"; "1"; "1"; "0"; "0"; "nboundlines"; "nboundlines"; "0"; "0"; "0"; "0"]
    else if String.eqb shortcut "J2" then
      ["1"; "je"; "2"; "1"; "0"; "0"; "nboundlines"; "nboundlines"; "0"; "0"; "0"; "0"]
    else if String.eqb shortcut "K" then
      ["1"; "1"; "ke"; "1"; "0"; "0"; "0"; "0"; "0"; "0"; "0"; "0"]
    else if String.eqb shortcut "K1" then
      ["1"; "1"; "ke1"; "1"; "0"; "0"; "0"; "0"; "0"; "1"; "0"; "0"]
    else if String.eqb shortcut "IJ" then
      ["ie"; "je"; "1"; "1"; "nboundlines"; "nboundlines"; "nboundlines"; "nboundlines";
       "0"; "0"; "0"; "0"]
    else if String.eqb shortcut "IJ3" then
      ["ie"; "je"; "3"; "1"; "nboundlines"; "nboundlines"; "nboundlines"; "nboundlines";
       "0"; "0"; "0"; "0"]
    else if String.eqb shortcut "IK" then
      ["ie"; "1"; "ke"; "1"; "nboundlines"; "nboundlines"; "0"; "0"; "0"; "0"; "0"; "0"]
    else if String.eqb shortcut "IK1" then
      ["ie"; "1"; "ke1"; "1"; "nboundlines"; "nboundlines"; "0"; "0"; "0"; "1"; "0"; "0"]
    else if String.eqb shortcut "JK" then
      ["1"; "je"; "ke"; "1"; "0"; "0"; "nboundlines"; "nboundlines"; "0"; "0"; "0"; "0"]
    else if String.eqb shortcut "JK1" then
      ["1"; "je"; "ke1"; "1"; "0"; "0"; "nboundlines"; "nboundlines"; "0"; "1"; "0"; "0"]
    else if String.eqb shortcut "IJK" then
      ["ie"; "je"; "ke"; "1"; "nboundlines"; "nboundlines"; "nboundlines"; "nboundlines";
       "0"; "0"; "0"; "0"]
    else if String.eqb shortcut "IJK1" then
      ["ie"; "je"; "ke1"; "1"; "nboundlines"; "nboundlines"; "nboundlines"; "nboundlines";
       "0"; "1"; "0"; "0"]
    else []
  else [].

(** ** Directive handlers *)

Section Handlers.
Context (cfg : config).

(** [__exit_error] *)
Definition exit_error {A} (st : state) (directive msg : string) : result A :=
  Exit (Report (infile cfg) (p_linenum st) directive msg (p_line st)).

(** [args[0]], read by the handlers only where [args] is not empty. *)
Definition arg0 (args : list string) : string := default EmptyString (head args).

(** Directives, keys, values and the (optional) IF statement. *)
Definition parsed : Type := list string * list string * list string * string.

(** The loop of [__ser_arg_parse] over [args[1:]]. *)
Fixpoint arg_loop (st : state) (directive : string) (l : list string)
    (dirs keys values : list string) (if_encountered : bool) (if_statement : string)
    : result parsed :=
  match l with
  | [] => Ok (dirs, keys, values, if_statement)
  | arg :: l' =>
      if String.eqb (upper arg) "IF" then
        arg_loop st directive l' dirs keys values true if_statement
      else if if_encountered then
        if truthy if_statement then
          exit_error st directive "IF statement must be last argument"
        else arg_loop st directive l' dirs keys values if_encountered arg
      else
        match split_char "=" arg with
        | [v0] => arg_loop st directive l' (dirs ++ [v0]) keys values if_encountered if_statement
        | [v0; v1] =>
            arg_loop st directive l' dirs (keys ++ [v0]) (values ++ [v1])
                     if_encountered if_statement
        | _ => exit_error st directive "Problem extracting arguments and key=value pairs"
        end
  end.

(** General SER directive arguments parser. *)
Definition ser_arg_parse (st : state) (args : list string) : result parsed :=
  arg_loop st (arg0 args) (drop 1 args) [] [] [] false EmptyString.

Definition tracer_spec : Type := string * option string * option string.

Fixpoint tracer_loop (st : state) (directive : string) (l : list string)
    (tracersspec : list tracer_spec) (if_encountered : bool) (if_statement : string)
    : result (list tracer_spec * string) :=
  match l with
  | [] => Ok (tracersspec, if_statement)
  | arg :: l' =>
      if String.eqb (upper arg) "IF" then
        tracer_loop st directive l' tracersspec true if_statement
      else if if_encountered then
        if truthy if_statement then
          exit_error st directive "IF statement must be last argument"
        else tracer_loop st directive l' tracersspec if_encountered arg
      else
        match re_tracer_match arg with
        | None =>
            exit_error st directive ("Tracer specification " +:+ arg +:+ " is invalid")
        | Some g => tracer_loop st directive l' (tracersspec ++ [g]) if_encountered if_statement
        end
  end.

(** Parser for tracer directive. *)
Definition ser_tracer_parse (st : state) (args : list string)
    : result (list tracer_spec * string) :=
  tracer_loop st (arg0 args) (drop 1 args) [] false EmptyString.

(** The conditional block every handler opens and closes the same way:
    [l += 'IF (' + if_statement + ') THEN\n'] with [tab = '  '], and
    [l += 'ENDIF\n'] at the end. *)
Definition if_head (c : string) : string :=
  if truthy c then "IF (" +:+ c +:+ ") THEN" +:+ NL else EmptyString.
Definition if_tab (c : string) : string :=
  if truthy c then "  " else EmptyString.
Definition if_foot (c : string) : string :=
  if truthy c then "ENDIF" +:+ NL else EmptyString.

(** INIT directive *)
Definition ser_init (st : state) (args : list string) : result state :=
  '(dirs, keys, values, if_statement) ← ser_arg_parse st args;
  let tab := if_tab if_statement in
  let args_lower := map lower args in
  let if_pos := default (length args) (index_of "if" args_lower) in
  let l :=
    if_head if_statement
    +:+ tab +:+ "PRINT *, '>>>>>>>>>>>>>>>>>><<<<<<<<<<<<<<<<<<'" +:+ NL
    +:+ tab +:+ "PRINT *, '>>> WARNING: SERIALIZATION IS ON <<<'" +:+ NL
    +:+ tab +:+ "PRINT *, '>>>>>>>>>>>>>>>>>><<<<<<<<<<<<<<<<<<'" +:+ NL
    +:+ tab +:+ NL
    +:+ tab +:+ "! setup serialization environment" +:+ NL
    +:+ tab +:+ "call " +:+ methods !!! "init" +:+ "(" +:+ join "," (slice 1 if_pos args)
    +:+ ")" +:+ NL
    +:+ if_foot if_statement in
  Ok (set_line l (add_call (methods !!! "init") st)).

(** The value written for a key of OPTION. *)
Definition option_value (k v : string) : string :=
  if String.eqb (lower k) "verbosity" then
    if String.eqb (lower v) "off" then "0"
    else if String.eqb (lower v) "on" then "1"
    else v
  else v.

(** OPTION directive *)
Definition ser_option (st : state) (args : list string) : result state :=
  '(dirs, keys, values, if_statement) ← ser_arg_parse st args;
  if negb (length dirs =? 0) then
    exit_error st (arg0 args) "Must specify a name and a list of key=value pairs"
  else
    let l :=
      if_head if_statement
      +:+ "call " +:+ methods !!! "option" +:+ "("
      +:+ join ", " (map (λ kv, kv.1 +:+ "=" +:+ option_value kv.1 kv.2) (zip keys values))
      +:+ ")" +:+ NL
      +:+ if_foot if_statement in
    Ok (set_line l (add_call (methods !!! "option") st)).

(** METAINFO directive *)
Definition ser_metainfo (st : state) (args : list string) : result state :=
  '(dirs, keys, values, if_statement) ← ser_arg_parse st args;
  let tab := if_tab if_statement in
  let l :=
    if_head if_statement
    +:+ sconcat (map (λ kv, tab +:+ "CALL " +:+ methods !!! "serinfo"
                            +:+ "(ppser_serializer, " +:+ DQ +:+ kv.1 +:+ DQ +:+ ", "
                            +:+ kv.2 +:+ ")" +:+ NL) (zip keys values))
    +:+ sconcat (map (λ d, tab +:+ "CALL " +:+ methods !!! "serinfo"
                           +:+ "(ppser_serializer, " +:+ DQ +:+ d +:+ DQ +:+ ", "
                           +:+ d +:+ ")" +:+ NL) dirs)
    +:+ if_foot if_statement in
  Ok (set_line l (add_call (methods !!! "serinfo") st)).

(** VERBATIM directive: simply remove the directive marker. *)
Definition ser_verbatim (st : state) (args : list string) : result state :=
  Ok (set_line (join " " (drop 1 args) +:+ NL) st).

(** REGISTER directive *)
Definition ser_register (st : state) (args : list string) : result state :=
  '(dirs, keys, values, if_statement) ← ser_arg_parse st args;
  if length dirs <? 2 then
    exit_error st (arg0 args) "Must specify a name, a type and the field sizes"
  else
    let dirs := if length dirs =? 2 then dirs ++ [EmptyString] else dirs in
    match dirs with
    | name :: type :: sizes =>
        (* quote name *)
        let name := "'" +:+ name +:+ "'" in
        (* data type: [dirs[1:2] = datatypes[dirs[1]]] *)
        match datatypes !! type with
        | None => Raise (KeyError type)
        | Some constants =>
            let dirs := name :: constants ++ sizes in
            (* implement some shortcuts for often recurring patterns *)
            let dirs :=
              if length dirs =? 4 then
                match reg_shortcuts (default EmptyString (dirs !! 3)) with
                | [] => dirs
                | l => take 3 dirs ++ l
                end
              else dirs in
            let tab := if_tab if_statement in
            let l :=
              if_head if_statement
              +:+ tab +:+ "call " +:+ methods !!! "register" +:+ "(ppser_serializer, "
              +:+ join ", " dirs +:+ ")" +:+ NL in
            let st := add_call (methods !!! "register") st in
            if 0 <? length keys then
              exit_error st (arg0 args) "Metainformation for fields are not yet implemented"
            else Ok (set_line (l +:+ if_foot if_statement) st)
        end
    | _ => Raise IndexError
    end.

(** REGISTERTRACERS directive *)
Definition ser_registertracers (st : state) (args : list string) : result state :=
  Ok (set_line ("call fs_RegisterAllTracers()" +:+ NL)
        (add_call (methods !!! "registertracers") st)).

(** ZERO directive *)
Definition ser_zero (st : state) (args : list string) : result state :=
  '(dirs, keys, values, if_statement) ← ser_arg_parse st args;
  if 0 <? length keys then
    exit_error st (arg0 args) "Must specify a list of fields"
  else
    let tab := if_tab if_statement in
    let l :=
      if_head if_statement
      +:+ sconcat (map (λ arg, tab +:+ arg +:+ " = 0.0_" +:+ real cfg +:+ NL) dirs)
      +:+ if_foot if_statement in
    Ok (set_line l st).

(** SAVEPOINT directive *)
Definition ser_savepoint (st : state) (args : list string) : result state :=
  '(dirs, keys, values, if_statement) ← ser_arg_parse st args;
  match dirs with
  | [name] =>
      let tab := if_tab if_statement in
      let l :=
        if_head if_statement
        +:+ tab +:+ "call " +:+ methods !!! "savepoint" +:+ "('" +:+ name
        +:+ "', ppser_savepoint)" +:+ NL
        +:+ sconcat (map (λ kv, tab +:+ "call " +:+ methods !!! "spinfo"
                                +:+ "(ppser_savepoint, '" +:+ kv.1 +:+ "', " +:+ kv.2
                                +:+ ")" +:+ NL) (zip keys values))
        +:+ if_foot if_statement in
      Ok (set_line l
            (add_call (methods !!! "spinfo") (add_call (methods !!! "savepoint") st)))
  | _ => exit_error st (arg0 args) "Must specify a name and a list of key=value pairs"
  end.

(** MODE directive *)
Definition ser_mode (st : state) (args : list string) : result state :=
  let st := add_call (methods !!! "mode") st in
  '(dirs, keys, values, if_statement) ← ser_arg_parse st args;
  let tab := if_tab if_statement in
  match args !! 1 with
  | None => Raise IndexError
  | Some a1 =>
      let l :=
        if_head if_statement
        +:+ tab +:+ "call " +:+ methods !!! "mode" +:+ "("
        +:+ match modes !! a1 with Some n => pretty n | None => a1 end
        +:+ ")" +:+ NL
        +:+ if_foot if_statement in
      Ok (set_line l st)
  end.

(** The loop of [__ser_data] that records the fields whose INTENT(IN) is to
    be removed: the value without its subscript, when not recorded yet. *)
Definition request_removal (to_remove : list string) (values : list string) : list string :=
  foldl (λ acc v,
           let v := sub_delete paren_greedy v 0 in
           if bool_decide (v ∈ acc) then acc else acc ++ [v])
        to_remove values.

(** DATA directive *)
Definition ser_data (st : state) (args : list string) : result state :=
  '(dirs, keys, values, if_statement) ← ser_arg_parse st args;
  (* only key=value pairs with optional removeintentin allowed *)
  if negb (length dirs =? 0)
     && negb ((length dirs =? 1) && bool_decide ("removeintentin" ∈ dirs)) then
    exit_error st (arg0 args)
      "Must specify a list of key=value pairs with optional removeintentin"
  else
    let st := add_call (methods !!! "getmode")
                (add_call (methods !!! "dataread") (add_call (methods !!! "datawrite") st)) in
    let tab := if_tab if_statement in
    let st :=
      if bool_decide ("removeintentin" ∈ dirs) then
        set_to_remove (request_removal (intentin_to_remove st) values) st
      else st in
    let l :=
      if_head if_statement
      +:+ tab +:+ "SELECT CASE ( " +:+ methods !!! "getmode" +:+ "() )" +:+ NL
      +:+ tab +:+ "  " +:+ "CASE(" +:+ pretty (modes !!! "write") +:+ ")" +:+ NL
      +:+ sconcat (map (λ kv,
            tab +:+ "    " +:+ "ACC_PREFIX UPDATE HOST ( " +:+ kv.2
                +:+ " ), IF (i_am_accel_node) " +:+ NL
            +:+ tab +:+ "    " +:+ "call " +:+ methods !!! "datawrite"
                +:+ "(ppser_serializer, ppser_savepoint, '" +:+ kv.1 +:+ "', " +:+ kv.2
                +:+ ")" +:+ NL) (zip keys values))
      +:+ tab +:+ "  " +:+ "CASE(" +:+ pretty (modes !!! "read") +:+ ")" +:+ NL
      +:+ sconcat (map (λ kv,
            tab +:+ "    " +:+ "call " +:+ methods !!! "dataread"
                +:+ "(ppser_serializer_ref, ppser_savepoint, '" +:+ kv.1 +:+ "', " +:+ kv.2
                +:+ ")" +:+ NL
            +:+ tab +:+ "    " +:+ "ACC_PREFIX UPDATE DEVICE ( " +:+ kv.2
                +:+ " ), IF (i_am_accel_node) " +:+ NL) (zip keys values))
      +:+ tab +:+ "END SELECT" +:+ NL
      +:+ if_foot if_statement in
    Ok (set_line l st).

(** The function a tracer specification selects and its arguments. *)
Definition tracer_call (t : tracer_spec) : string * list string :=
  let '(t0, t1, t2) := t in
  let '(function, fargs) :=
    if String.eqb t0 "%all" then ("ppser_write_tracer_all", [])
    else
      match t0 with
      | String "$" idxs =>
          (* index-based access *)
          ("ppser_write_tracer_bx_idx",
           if has_char "-" idxs then split_char "-" idxs else [idxs])
      | _ =>
          (* name-based access *)
          ("ppser_write_tracer_by_name", ["'" +:+ t0 +:+ "'"])
      end in
  (* required stype argument, then the other arguments *)
  let fargs := fargs ++ ["stype='" +:+ default EmptyString t1 +:+ "'"] in
  let fargs :=
    match t2 with
    | Some tl => if truthy tl then fargs ++ ["timelevel=" +:+ tl] else fargs
    | None => fargs
    end in
  (function, fargs).

(** TRACER directive *)
Definition ser_tracer (st : state) (args : list string) : result state :=
  '(tracerspec, if_statement) ← ser_tracer_parse st args;
  let tab := if_tab if_statement in
  let calls := map tracer_call tracerspec in
  let l :=
    if_head if_statement
    +:+ sconcat (map (λ fa, tab +:+ "call " +:+ fa.1 +:+ "(" +:+ join ", " fa.2
                            +:+ ")" +:+ NL) calls)
    +:+ if_foot if_statement in
  Ok (set_line l (foldl (λ st fa, add_call fa.1 st) st calls)).

(** CLEANUP directive *)
Definition ser_cleanup (st : state) (args : list string) : result state :=
  let l :=
    "! cleanup serialization environment" +:+ NL
    +:+ "call " +:+ methods !!! "cleanup" +:+ "(" +:+ join "," (drop 1 args) +:+ ")" +:+ NL in
  Ok (set_line l (add_call (methods !!! "cleanup") st)).

(** ON directive *)
Definition ser_on (st : state) (args : list string) : result state :=
  Ok (set_line ("call " +:+ methods !!! "on" +:+ "()" +:+ NL)
        (add_call (methods !!! "on") st)).

(** OFF directive *)
Definition ser_off (st : state) (args : list string) : result state :=
  Ok (set_line ("call " +:+ methods !!! "off" +:+ "()" +:+ NL)
        (add_call (methods !!! "off") st)).

End Handlers.

(** ** The engine *)

Section Engine.
(** The order in which Python iterates over the set of calls. *)
Context (iter : gset string → list string).
Context (cfg : config).

(** LINE: module/program *)
Definition re_module (st : state) : result state :=
  match re_module_match (p_line st) with
  | Some (g1, g2) =>
      if String.eqb (upper g2) "PROCEDURE" then Ok st
      else if truthy (p_module st) then
        exit_error cfg st EmptyString ("Unexpected " +:+ g1 +:+ " statement")
      else Ok (set_module g2 st)
  | None => Ok st
  end.

(** LINE: implicit none *)
Definition re_implicit (st : state) : state :=
  if re_implicit_match (p_line st) then
    let calls := iter (p_calls st) in
    let calls_pp := filter (λ c, startswith "ppser" c = true) calls in
    let calls_fs := filter (λ c, startswith "ppser" c ≠ true) calls in
    let ncalls := length calls_pp + length calls_fs in
    let calls_pp :=
      if 0 <? ncalls then
        calls_pp ++ ["ppser_savepoint"; "ppser_serializer"; "ppser_serializer_ref";
                     "ppser_intlength"; "ppser_reallength"; "ppser_realtype"]
      else calls_pp in
    let st :=
      if (0 <? ncalls) && negb (p_implicitnone_done st) then
        let l :=
          NL
          +:+ (if truthy (ifdef cfg) then "#ifdef " +:+ ifdef cfg +:+ NL else EmptyString)
          +:+ (if 0 <? length calls_fs then
                 "USE " +:+ module cfg +:+ ", ONLY: " +:+ join ", " calls_fs +:+ NL
               else EmptyString)
          +:+ (if 0 <? length calls_pp then
                 "USE utils_ppser, ONLY: " +:+ join ", " calls_pp +:+ NL
               else EmptyString)
          +:+ (if truthy (ifdef cfg) then "#endif" +:+ NL else EmptyString)
          +:+ NL in
        set_done true (set_line (l +:+ p_line st) st)
      else st in
    set_found true st
  else st.

(** LINE: !$SER directive; also tells whether the line is one. *)
Definition re_ser (st : state) : result (state * bool) :=
  match re_ser_match (p_line st) with
  | Some g1 =>
      if truthy g1 then
        let args := tokenize g1 in
        match args with
        | [] => Raise IndexError
        | a0 :: _ =>
            st' ← (if is_kw "init" a0 then ser_init cfg st args
                   else if is_kw "option" a0 then ser_option cfg st args
                   else if is_kw "metainfo" a0 then ser_metainfo cfg st args
                   else if is_kw "verbatim" a0 then ser_verbatim st args
                   else if is_kw "register" a0 then ser_register cfg st args
                   else if is_kw "savepoint" a0 then ser_savepoint cfg st args
                   else if is_kw "zero" a0 then ser_zero cfg st args
                   else if is_kw "data" a0 then ser_data cfg st args
                   else if is_kw "tracer" a0 then ser_tracer cfg st args
                   else if is_kw "registertracers" a0 then ser_registertracers st args
                   else if is_kw "cleanup" a0 then ser_cleanup st args
                   else if is_kw "on" a0 then ser_on st args
                   else if is_kw "off" a0 then ser_off st args
                   else if is_kw "mode" a0 then ser_mode cfg st args
                   else exit_error cfg st a0 "Unknown directive encountered");
            Ok (st', true)
        end
      else Ok (st, true)
  | None => Ok (st, false)
  end.

(** LINE: end module/end program *)
Definition re_endmodule (st : state) : result state :=
  match re_endmodule_match (p_line st) with
  | Some (g1, g2) =>
      if negb (truthy (p_module st)) then
        exit_error cfg st EmptyString
          ("Unexpected " +:+ DQ +:+ "end " +:+ g1 +:+ DQ +:+ " statement")
      else if negb (String.eqb (p_module st) g2) then
        exit_error cfg st EmptyString
          ("Was expecting " +:+ DQ +:+ "end " +:+ g1 +:+ " " +:+ p_module st +:+ DQ)
      else Ok (set_module EmptyString st)
  | None => Ok st
  end.

(** LINE: a declaration with INTENT(IN) *)
Definition re_def (st : state) : result state :=
  if re_def_match (p_line st) then
    match split_dcolon (p_line st) !! 1 with
    | None => Raise IndexError
    | Some decl =>
        let var_with_dim := map (λ x, remove_spaces (strip x)) (split_commas decl) in
        let var := map (λ x, sub_delete paren_lazy x 0) var_with_dim in
        let fields_in_this_line := filter (λ x, x ∈ var) (intentin_to_remove st) in
        let st :=
          set_removed
            (intentin_removed st
             ++ filter (λ x, x ∉ intentin_removed st) fields_in_this_line) st in
        match fields_in_this_line with
        | [] => Ok st
        | _ =>
            let l :=
              "#ifdef " +:+ ifdef cfg +:+ NL
              +:+ sub_delete comma_intent (p_line st) 0
              +:+ "#else" +:+ NL +:+ p_line st +:+ "#endif" +:+ NL in
            Ok (set_line l st)
        end
    end
  else Ok st.

(** The guard around the lines that come from directives. *)
Definition guard (m : bool) (st : state) : state :=
  if m then
    (* if this is the first line with !$SER statements, add #ifdef *)
    if truthy (ifdef cfg) && negb (p_ser st) then
      set_ser true (set_line ("#ifdef " +:+ ifdef cfg +:+ NL +:+ p_line st) st)
    else st
  else
    (* if this is the first line without !$SER statements, add #endif *)
    if truthy (ifdef cfg) && p_ser st then
      set_ser false (set_line ("#endif" +:+ NL +:+ p_line st) st)
    else st.

(** The final call checks consistency. *)
Definition final_check (st : state) : result state :=
  if p_ser st then
    exit_error cfg st EmptyString ("Unterminated #ifdef " +:+ ifdef cfg +:+ " encountered")
  else if truthy (p_module st) then
    exit_error cfg st EmptyString "Unterminated module or program unit encountered"
  else if (0 <? size (p_calls st)) && negb (p_implicitnone_found st) then
    exit_error cfg st EmptyString "No IMPLICIT NONE statement found in code"
  else Ok st.

(** Evaluate one line. *)
Definition lexer (final : bool) (st : state) : result state :=
  (* parse lines related to scope *)
  st ← re_module st;
  let st := re_implicit st in
  st ← re_endmodule st;
  st ← re_def st;
  (* parse !$SER lines *)
  '(st, m) ← re_ser st;
  let st := guard m st in
  if final then final_check st else Ok st.

(** [parse] resets the flags which define the state of the parser; the
    calls and the two INTENT(IN) lists are not among them. *)
Definition reset_flags (st : state) : state :=
  State (intentin_to_remove st) (intentin_removed st)
        false EmptyString 0 EmptyString (p_calls st) EmptyString false false.

(** One turn of the loop of [parse] over the lines of the file. *)
Definition parse_line (generate : bool) (st : state) (line : string) : result state :=
  (* handle line continuation (next line coming in) *)
  line ← (if truthy (p_line st) then
            if re_cont_in line then Ok (sub_cont_in line)
            else exit_error cfg st EmptyString "Incorrect line continuation encountered"
          else Ok line);
  let st := set_linenum (p_linenum st + 1) (set_line (p_line st +:+ line) st) in
  (* handle line continuation (continued line going out) *)
  if re_cont_out (p_line st) then
    (* chop trailing & *)
    Ok (set_line (rstrip (chop_amp (p_line st))) st)
  else
    (* parse line *)
    st ← lexer false st;
    let st :=
      if generate then set_outputBuffer (p_outputBuffer st +:+ p_line st) st else st in
    (* cleanup current line (used for line continuation and final lexer call) *)
    Ok (set_line EmptyString st).

Fixpoint parse_lines (generate : bool) (st : state) (lines : list string) : result state :=
  match lines with
  | [] => Ok st
  | line :: rest =>
      st ← parse_line generate st line;
      parse_lines generate st rest
  end.

(** The check [parse] makes after the last call of the lexer. *)
Definition check_removed (generate : bool) (st : state) : result state :=
  if generate
     && negb (length (intentin_to_remove st) =? length (intentin_removed st)) then
    let diff := filter (λ x, x ∉ intentin_removed st) (intentin_to_remove st) in
    exit_error cfg st EmptyString
      ("cannot find INTENT(IN) declaration for " +:+ join ", " diff)
  else Ok st.

(** Execute one parsing pass over the lines of the file; if [generate] is
    false the file is only analysed. *)
Definition parse (generate : bool) (lines : list string) (st : state) : result state :=
  let st := reset_flags st in
  st ← parse_lines generate st lines;
  st ← lexer true st;
  check_removed generate st.

(** Main processing method, up to the output buffer: [content] is the text
    of the input file, read once by each pass. *)
Definition preprocess (content : string) : result state :=
  let lines := readlines content in
  st ← parse false lines init_state;   (* first pass, analyse only *)
  parse true lines st.                 (* second pass, preprocess *)

End Engine.

(** ** Predicates and inputs of the properties *)

(** *** What a handler may change

    A handler rewrites the current line, adds calls, and (DATA only) asks
    for INTENT(IN) removals; everything else is left as it was. *)

Record frame (st st' : state) : Prop := Frame {
  frame_calls : p_calls st ⊆ p_calls st';
  frame_to_remove :
    ∃ vs, intentin_to_remove st' = request_removal (intentin_to_remove st) vs;
  frame_removed : intentin_removed st' = intentin_removed st;
  frame_ser : p_ser st' = p_ser st;
  frame_linenum : p_linenum st' = p_linenum st;
  frame_module : p_module st' = p_module st;
  frame_outputBuffer : p_outputBuffer st' = p_outputBuffer st;
  frame_found : p_implicitnone_found st' = p_implicitnone_found st;
  frame_done : p_implicitnone_done st' = p_implicitnone_done st
}.

(** *** The INTENT(IN) lists

    The fields found are among the fields requested, and neither list
    repeats a name. *)

Definition removal_inv (st : state) : Prop :=
  NoDup (intentin_to_remove st) ∧ NoDup (intentin_removed st) ∧
  intentin_removed st ⊆ intentin_to_remove st.

(** *** Lines and states met in the proofs *)

(** Every character of [s] satisfies [p]. *)
Fixpoint sall (p : ascii → bool) (s : string) : bool :=
  match s with
  | EmptyString => true
  | String c r => p c && sall p r
  end.

(** The first character of [s] that is not a space is an exclamation mark:
    [s] is a comment line of Fortran, as every directive line is. *)
Definition bang (s : string) : Prop := ∃ r, skip_spaces s = String "!" r.

(** The state of a pass that has met no directive. *)
Record plain (st : state) : Prop := Plain {
  plain_calls : p_calls st = ∅;
  plain_to_remove : intentin_to_remove st = [];
  plain_removed : intentin_removed st = [];
  plain_ser : p_ser st = false;
  plain_done : p_implicitnone_done st = false
}.

(** Between two lines of a file without IMPLICIT NONE the statement has
    not been noted, and the line kept for a continuation, if any, is a
    comment line. *)
Definition no_anchor_yet (st : state) : Prop :=
  p_implicitnone_found st = false ∧ (p_line st = EmptyString ∨ bang (p_line st)).

(** [arg.upper() == 'IF']: the argument is the marker of the condition. *)
Definition is_if (arg : string) : bool := String.eqb (upper arg) "IF".

(** A configuration as the command line builds it, and some files. *)
Definition cfg0 : config := Config "t.f90" "SERIALIZE" "wp" "m_serialize".

(** The lines of a file, each with its line feed. *)
Definition text (l : list string) : string := sconcat (map (λ x, x +:+ NL) l).

Definition file_on : string := text ["implicit none"; "!$SER ON"; "x = 1"].

Definition file_removal : string :=
  text ["subroutine f(z, w)"; "implicit none"; "real, intent(in) :: z(:,:), w";
        "!$SER DATA removeintentin a=v(:,:) b=q c=z(1,:)"; "end subroutine f"].

Definition file_plain : string :=
  text ["program p"; "implicit none"; "  integer :: i"; "end program p"].

Definition file_verbatim : string := text ["!$SER VERBATIM x = 1"; "y = 2"].

Definition file_open_guard : string := text ["implicit none"; "!$SER ON"].

Definition file_one_line : string :=
  text ["!$SER VERBATIM a = 1 + 2 + 3"; "b = 2"].
Definition file_split_lower : string :=
  text ["!$SER VERBATIM a = 1 &"; "!$ser& + 2 &"; "!$ser& + 3"; "b = 2"].
Definition file_split_upper : string :=
  text ["!$SER VERBATIM a = 1 &"; "!$SER& + 2 &"; "!$SER& + 3"; "b = 2"].

Definition file_on_off : string :=
  text ["implicit none"; "!$SER ON"; "!$SER OFF"; "x = 1"].

(** A file without directive whose line ends with CR LF. *)
Definition file_crlf : string := "x = 1" +:+ CR +:+ NL.

(** The output buffer of a run. *)
Definition output (r : result state) : result string :=
  st ← r; Ok (p_outputBuffer st).

(** The state a handler returns, if it returns. *)
Definition output_state (r : result state) : option state :=
  match r with Ok st => Some st | _ => None end.

(** *** Words and results met in the further properties *)

(** A word that the tokenizer leaves whole: not empty, without space and
    without quote. *)
Definition clean_word (w : string) : bool :=
  truthy w && sall (λ c, negb (is_quote_c c || Ascii.eqb c " ")) w.

(** A bare argument of a directive: a word that is no marker of a condition
    and holds no [=]. *)
Definition bare_arg (a : string) : bool :=
  negb (is_if a) && negb (has_char "=" a).

(** The keys of [language] in the order in which [__re_ser] tries them. *)
Definition dispatch_keys : list string :=
  ["init"; "option"; "metainfo"; "verbatim"; "register"; "savepoint"; "zero";
   "data"; "tracer"; "registertracers"; "cleanup"; "on"; "off"; "mode"].

(** A report names the input file and the current line number. *)
Definition reported (cfg : config) (st : state) (r : report) : Prop :=
  r_file r = infile cfg ∧ r_linenum r = p_linenum st.

(** *** What a directive does to the state

    The line it writes, the calls it adds in turn and the values whose
    INTENT(IN) it asks to remove. *)
Definition effect (l : string) (cs vs : list string) (st : state) : state :=
  set_line l
    (set_to_remove (request_removal (intentin_to_remove st) vs)
       (foldl (λ s c, add_call c s) st cs)).

(** A handler does the same to two states. *)
Definition same_effect (s1 s2 r1 r2 : state) : Prop :=
  ∃ l cs vs, r1 = effect l cs vs s1 ∧ r2 = effect l cs vs s2.

(** Two runs end alike: both return, with related values, or both stop on
    an error with the same message, or both raise the same exception. *)
Definition alike {A B} (R : A → B → Prop) (x : result A) (y : result B) : Prop :=
  match x, y with
  | Ok a, Ok b => R a b
  | Exit r, Exit r' => r_msg r = r_msg r'
  | Raise e, Raise e' => e = e'
  | _, _ => False
  end.

(** * Properties *)

(** The tables are constants: no proof below looks inside them. *)
#[local] Opaque methods language modes datatypes.

(** ** The result monad *)

Lemma bind_Ok {A B} (m : result A) (f : A → result B) (b : B) :
  m ≫= f = Ok b ↔ ∃ a, m = Ok a ∧ f a = Ok b.
Proof.
  destruct m as [a|r|e]; simpl; split.
  - intros H. exists a. auto.
  - intros (a' & Ha & Hf). congruence.
  - discriminate.
  - intros (a' & Ha & _). discriminate.
  - discriminate.
  - intros (a' & Ha & _). discriminate.
Qed.

Lemma bind_Ok_l {A B} (a : A) (f : A → result B) : Ok a ≫= f = f a.
Proof. reflexivity. Qed.

Lemma Ok_inj {A} (a b : A) : Ok a = Ok b → a = b.
Proof. congruence. Qed.

(** Splits a hypothesis [m ≫= f = Ok b] into its two steps. *)
Ltac bind_inv H :=
  let a := fresh "x" in
  let Ha := fresh "Hx" in
  apply bind_Ok in H; destruct H as (a & Ha & H).

(** ** Strings *)

Lemma sapp_nil_l s : EmptyString +:+ s = s.
Proof. reflexivity. Qed.

Lemma sapp_cons c s t : String c s +:+ t = String c (s +:+ t).
Proof. reflexivity. Qed.

Lemma sapp_nil_r s : s +:+ EmptyString = s.
Proof. induction s as [|c s IH]; [done|]. by rewrite sapp_cons, IH. Qed.

Lemma sapp_assoc s t u : (s +:+ t) +:+ u = s +:+ (t +:+ u).
Proof. induction s as [|c s IH]; [done|]. by rewrite !sapp_cons, IH. Qed.

Lemma skip_spaces_cons c r :
  skip_spaces (String c r) = if Ascii.eqb c " " then skip_spaces r else String c r.
Proof. destruct c as [[] [] [] [] [] [] [] []]; reflexivity. Qed.

Lemma sconcat_cons_head c l : sconcat (cons_head c l) = String c (sconcat l).
Proof. destruct l; reflexivity. Qed.

(** Cutting a text into lines loses nothing. *)
Lemma sconcat_iter_lines s : sconcat (iter_lines s) = s.
Proof.
  induction s as [|c s IH]; [done|]. simpl.
  destruct (Ascii.eqb c NLc).
  - simpl. by rewrite sapp_cons, sapp_nil_l, IH.
  - by rewrite sconcat_cons_head, IH.
Qed.

(** The lines read make the text with its line ends translated. *)
Lemma sconcat_readlines s : sconcat (readlines s) = universal_newlines s.
Proof. apply sconcat_iter_lines. Qed.

(** A text without carriage return is read as it is. *)
Lemma universal_newlines_no_cr s :
  has_char CRc s = false → universal_newlines s = s.
Proof.
  induction s as [|c s IH]; [done|]. intros H.
  change (has_char CRc (String c s)) with (Ascii.eqb CRc c || has_char CRc s) in H.
  apply orb_false_elim in H as [Hc Hs]. rewrite Ascii.eqb_sym in Hc.
  cbn [universal_newlines]. by rewrite Hc, IH.
Qed.

Lemma upto_dollar_skip_spaces r :
  upto_dollar r ≠ None → upto_dollar (skip_spaces r) ≠ None.
Proof.
  induction r as [|c r IH]; [done|]. rewrite skip_spaces_cons.
  destruct (Ascii.eqb_spec c " ") as [->|Hc]; [|done].
  simpl. destruct (upto_dollar r); [auto|done].
Qed.

(** A line that is continued is a directive line. *)
Lemma re_cont_out_re_ser l : re_cont_out l = true → re_ser_match l ≠ None.
Proof.
  unfold re_cont_out, re_ser_match.
  destruct (ser_prefix l) as [r|]; [|done].
  intros H. apply upto_dollar_skip_spaces. by destruct (upto_dollar r).
Qed.

(** ** What a handler may change *)

Lemma frame_refl st : frame st st.
Proof. split; try done. by exists []. Qed.

Lemma frame_set_line l st st' : frame st st' → frame st (set_line l st').
Proof. intros [? ? ? ? ? ? ? ? ?]. split; done. Qed.

Lemma frame_add_call c st st' : frame st st' → frame st (add_call c st').
Proof.
  intros [Hc ? ? ? ? ? ? ? ?]. split; try done. simpl.
  etrans; [exact Hc|apply union_subseteq_r].
Qed.

Lemma frame_set_to_remove vs st :
  frame st (set_to_remove (request_removal (intentin_to_remove st) vs) st).
Proof. split; try done. by exists vs. Qed.

Lemma frame_add_calls {A} (f : A → string) (l : list A) st st' :
  frame st st' → frame st (foldl (λ st fa, add_call (f fa) st) st' l).
Proof.
  revert st'. induction l as [|a l IH]; intros st' H; simpl; [done|].
  apply IH. by apply frame_add_call.
Qed.

Create HintDb frame.
#[local] Hint Resolve frame_refl frame_set_line frame_add_call frame_set_to_remove
  frame_add_calls : frame.

(** Runs a handler symbolically: every test it makes is split, and the
    branches that do not return are closed. *)
Ltac run_handler H :=
  repeat match type of H with
  | Ok _ = Ok ?b => apply Ok_inj in H; subst b
  | Exit _ = Ok _ => discriminate H
  | Raise _ = Ok _ => discriminate H
  | exit_error _ _ _ _ = Ok _ => discriminate H
  | _ ≫= _ = Ok _ => bind_inv H
  | (let '(_, _) := ?p in _) = Ok _ => destruct p
  | (if ?b then _ else _) = Ok _ => destruct b
  | match ?x with _ => _ end = Ok _ => destruct x
  end.

Section HandlerFrames.
Context (cfg : config).

Lemma ser_init_frame st args st' : ser_init cfg st args = Ok st' → frame st st'.
Proof. unfold ser_init. intros H. run_handler H. auto with frame. Qed.

Lemma ser_option_frame st args st' : ser_option cfg st args = Ok st' → frame st st'.
Proof. unfold ser_option. intros H. run_handler H. auto with frame. Qed.

Lemma ser_metainfo_frame st args st' : ser_metainfo cfg st args = Ok st' → frame st st'.
Proof. unfold ser_metainfo. intros H. run_handler H. auto with frame. Qed.

Lemma ser_verbatim_frame st args st' : ser_verbatim st args = Ok st' → frame st st'.
Proof. unfold ser_verbatim. intros H. run_handler H. auto with frame. Qed.

Lemma ser_register_frame st args st' : ser_register cfg st args = Ok st' → frame st st'.
Proof. unfold ser_register. intros H. run_handler H. all: auto with frame. Qed.

Lemma ser_registertracers_frame st args st' :
  ser_registertracers st args = Ok st' → frame st st'.
Proof. unfold ser_registertracers. intros H. run_handler H. auto with frame. Qed.

Lemma ser_zero_frame st args st' : ser_zero cfg st args = Ok st' → frame st st'.
Proof. unfold ser_zero. intros H. run_handler H. auto with frame. Qed.

Lemma ser_savepoint_frame st args st' : ser_savepoint cfg st args = Ok st' → frame st st'.
Proof. unfold ser_savepoint. intros H. run_handler H. auto with frame. Qed.

Lemma ser_mode_frame st args st' : ser_mode cfg st args = Ok st' → frame st st'.
Proof. unfold ser_mode. intros H. run_handler H. auto with frame. Qed.

Lemma ser_data_frame st args st' : ser_data cfg st args = Ok st' → frame st st'.
Proof.
  unfold ser_data. intros H. run_handler H.
  all: apply frame_set_line; case_bool_decide; [|auto with frame].
  all: split; try done; [simpl; set_solver | by eexists].
Qed.

Lemma ser_tracer_frame st args st' : ser_tracer cfg st args = Ok st' → frame st st'.
Proof. unfold ser_tracer. intros H. run_handler H. auto with frame. Qed.

Lemma ser_cleanup_frame st args st' : ser_cleanup st args = Ok st' → frame st st'.
Proof. unfold ser_cleanup. intros H. run_handler H. auto with frame. Qed.

Lemma ser_on_frame st args st' : ser_on st args = Ok st' → frame st st'.
Proof. unfold ser_on. intros H. run_handler H. auto with frame. Qed.

Lemma ser_off_frame st args st' : ser_off st args = Ok st' → frame st st'.
Proof. unfold ser_off. intros H. run_handler H. auto with frame. Qed.

End HandlerFrames.

(** ** The steps of the lexer *)

Section EngineSteps.
Context (iter : gset string → list string) (cfg : config).

Lemma re_ser_frame st st' m : re_ser cfg st = Ok (st', m) → frame st st'.
Proof.
  unfold re_ser. intros H.
  destruct (re_ser_match (p_line st)) as [g1|]; [|apply Ok_inj in H; simplify_eq; auto with frame].
 destruct (truthy g1); [|apply Ok_inj in H; simplify_eq; auto with frame].
  destruct (tokenize g1) as [|a0 args]; [discriminate|].
  bind_inv H. apply Ok_inj in H. simplify_eq.
 destruct (is_kw "init" a0); [by eapply ser_init_frame|].
 destruct (is_kw "option" a0); [by eapply ser_option_frame|].
  destruct (is_kw "metainfo" a0); [by eapply ser_metainfo_frame|].
  destruct (is_kw "verbatim" a0); [by eapply ser_verbatim_frame|].
  destruct (is_kw "register" a0); [by eapply ser_register_frame|].
  destruct (is_kw "savepoint" a0); [by eapply ser_savepoint_frame|].
  destruct (is_kw "zero" a0); [by eapply ser_zero_frame|].
  destruct (is_kw "data" a0); [by eapply ser_data_frame|].
  destruct (is_kw "tracer" a0); [by eapply ser_tracer_frame|].
  destruct (is_kw "registertracers" a0); [by eapply ser_registertracers_frame|].
  destruct (is_kw "cleanup" a0); [by eapply ser_cleanup_frame|].
  destruct (is_kw "on" a0); [by eapply ser_on_frame|].
  destruct (is_kw "off" a0); [by eapply ser_off_frame|].
  destruct (is_kw "mode" a0); [by eapply ser_mode_frame|].
  discriminate.
Qed.

(** The lexer is the sequence of its steps. *)
Lemma lexer_Ok final st st' :
  lexer iter cfg final st = Ok st' ↔
  ∃ st1 st2 st3 st4 m,
    re_module cfg st = Ok st1 ∧
    re_endmodule cfg (re_implicit iter cfg st1) = Ok st2 ∧
    re_def cfg st2 = Ok st3 ∧
    re_ser cfg st3 = Ok (st4, m) ∧
    (if final then final_check cfg (guard cfg m st4) else Ok (guard cfg m st4)) = Ok st'.
Proof.
  unfold lexer. split.
  - intros H. bind_inv H. bind_inv H. bind_inv H. bind_inv H.
    destruct x2 as [st4 m]. eauto 10.
  - intros (st1 & st2 & st3 & st4 & m & H1 & H2 & H3 & H4 & H5).
    rewrite H1, bind_Ok_l, H2, bind_Ok_l, H3, bind_Ok_l, H4, bind_Ok_l. done.
Qed.


(** The scope steps leave the calls and the INTENT(IN) lists alone. *)
Lemma re_module_same st st' :
  re_module cfg st = Ok st' →
  st' = st ∨ st' = set_module (p_module st') st.
Proof.
  unfold re_module. intros H.
  destruct (re_module_match (p_line st)) as [[g1 g2]|]; [|apply Ok_inj in H; auto].
  destruct (String.eqb (upper g2) "PROCEDURE"); [apply Ok_inj in H; auto|].
  destruct (truthy (p_module st)); [discriminate|].
  apply Ok_inj in H. subst st'. by right.
Qed.

Lemma re_endmodule_same st st' :
  re_endmodule cfg st = Ok st' →
  st' = st ∨ st' = set_module EmptyString st.
Proof.
  unfold re_endmodule. intros H.
  destruct (re_endmodule_match (p_line st)) as [[g1 g2]|]; [|apply Ok_inj in H; auto].
  destruct (negb (truthy (p_module st))); [discriminate|].
  destruct (negb (String.eqb (p_module st) g2)); [discriminate|].
  apply Ok_inj in H. auto.
Qed.

Lemma re_implicit_calls st : p_calls (re_implicit iter cfg st) = p_calls st.
Proof. unfold re_implicit. repeat case_match; done. Qed.

Lemma re_implicit_to_remove st :
  intentin_to_remove (re_implicit iter cfg st) = intentin_to_remove st.
Proof. unfold re_implicit. repeat case_match; done. Qed.

Lemma re_implicit_removed st :
  intentin_removed (re_implicit iter cfg st) = intentin_removed st.
Proof. unfold re_implicit. repeat case_match; done. Qed.

Lemma re_implicit_ser st : p_ser (re_implicit iter cfg st) = p_ser st.
Proof. unfold re_implicit. repeat case_match; done. Qed.

Lemma re_implicit_outputBuffer st :
  p_outputBuffer (re_implicit iter cfg st) = p_outputBuffer st.
Proof. unfold re_implicit. repeat case_match; done. Qed.

Lemma re_implicit_nomatch st :
  re_implicit_match (p_line st) = false → re_implicit iter cfg st = st.
Proof. unfold re_implicit. by intros ->. Qed.

(** What [__re_def] does to the list of the fields found. *)
Lemma re_def_lists st st' :
  re_def cfg st = Ok st' →
  p_calls st' = p_calls st ∧
  intentin_to_remove st' = intentin_to_remove st ∧
  p_ser st' = p_ser st ∧
  p_implicitnone_found st' = p_implicitnone_found st ∧
  p_implicitnone_done st' = p_implicitnone_done st ∧
  p_outputBuffer st' = p_outputBuffer st ∧
  ∃ var : list string,
    let fields := filter (λ x, x ∈ var) (intentin_to_remove st) in
    intentin_removed st' =
      intentin_removed st ++ filter (λ x, x ∉ intentin_removed st) fields ∧
    (fields = [] → p_line st' = p_line st).
Proof.
  unfold re_def. intros H.
  destruct (re_def_match (p_line st)).
  - destruct (split_dcolon (p_line st) !! 1) as [decl|]; [|discriminate].
    match type of H with
    | context [filter (λ x, x ∈ ?v) _] => set (var := v) in *
    end.
    destruct (filter (λ x, x ∈ var) (intentin_to_remove st)) as [|f fs] eqn:Hf;
      apply Ok_inj in H; subst st'; simpl.
    + repeat split; try done. exists var. rewrite Hf. done.
    + repeat split; try done. exists var. rewrite Hf. done.
  - apply Ok_inj in H. subst st'. repeat split; try done.
    exists []. simpl. split; [|done].
    assert (Hnil : filter (λ x : string, x ∈ @nil string) (intentin_to_remove st) = []).
    { induction (intentin_to_remove st) as [|a l IH]; [done|].
      rewrite filter_cons. destruct (decide (a ∈ [])) as [Ha|Ha]; [|done].
      by apply elem_of_nil in Ha. }
    rewrite Hnil. simpl. by rewrite app_nil_r.
Qed.

Lemma guard_same m st :
  p_calls (guard cfg m st) = p_calls st ∧
  intentin_to_remove (guard cfg m st) = intentin_to_remove st ∧
  intentin_removed (guard cfg m st) = intentin_removed st ∧
  p_implicitnone_found (guard cfg m st) = p_implicitnone_found st ∧
  p_implicitnone_done (guard cfg m st) = p_implicitnone_done st ∧
  p_outputBuffer (guard cfg m st) = p_outputBuffer st.
Proof. unfold guard. repeat case_match; done. Qed.

Lemma final_check_same st st' : final_check cfg st = Ok st' → st' = st.
Proof.
  unfold final_check. intros H.
  repeat match type of H with
  | (if ?b then _ else _) = Ok _ => destruct b; [discriminate|]
  end.
  by apply Ok_inj in H.
Qed.


(** *** The calls only grow *)

Lemma lexer_calls final st st' :
  lexer iter cfg final st = Ok st' → p_calls st ⊆ p_calls st'.
Proof.
  intros (st1 & st2 & st3 & st4 & m & H1 & H2 & H3 & H4 & H5)%lexer_Ok.
  assert (p_calls st' = p_calls st4) as ->.
  { destruct final; [apply final_check_same in H5|apply Ok_inj in H5]; subst st';
      apply guard_same. }
  apply re_ser_frame in H4. destruct H4 as [Hc _ _ _ _ _ _ _ _].
  apply re_def_lists in H3. destruct H3 as (Hc3 & _).
  assert (p_calls st2 = p_calls st1) as Hc2.
  { destruct (re_endmodule_same _ _ H2) as [->| ->]; apply re_implicit_calls. }
  assert (p_calls st1 = p_calls st) as Hc1.
  { by destruct (re_module_same _ _ H1) as [->| ->]. }
  by rewrite <- Hc1, <- Hc2, <- Hc3.
Qed.

Lemma parse_line_calls generate st line st' :
  parse_line iter cfg generate st line = Ok st' → p_calls st ⊆ p_calls st'.
Proof.
  unfold parse_line. intros H. bind_inv H.
  match type of H with (if ?b then _ else _) = _ => destruct b end.
  - apply Ok_inj in H. by subst st'.
  - bind_inv H. apply Ok_inj in H. subst st'.
    apply lexer_calls in Hx0. by destruct generate.
Qed.

Lemma parse_lines_calls generate lines st st' :
  parse_lines iter cfg generate st lines = Ok st' → p_calls st ⊆ p_calls st'.
Proof.
  revert st. induction lines as [|line lines IH]; intros st H; simpl in H.
  - apply Ok_inj in H. by subst.
  - bind_inv H. apply parse_line_calls in Hx. apply IH in H. set_solver.
Qed.

Lemma check_removed_same generate st st' :
  check_removed cfg generate st = Ok st' → st' = st.
Proof.
  unfold check_removed. intros H.
  match type of H with (if ?b then _ else _) = _ => destruct b end;
    [discriminate|by apply Ok_inj in H].
Qed.

Lemma parse_calls generate lines st st' :
  parse iter cfg generate lines st = Ok st' → p_calls st ⊆ p_calls st'.
Proof.
  unfold parse. intros H. bind_inv H. bind_inv H.
  apply check_removed_same in H. subst st'.
  apply parse_lines_calls in Hx. apply lexer_calls in Hx0.
  simpl in Hx. set_solver.
Qed.

(** *** The INTENT(IN) lists *)

Lemma request_removal_spec vs l :
  NoDup l → NoDup (request_removal l vs) ∧ l ⊆ request_removal l vs.
Proof.
  unfold request_removal.
  revert l. induction vs as [|v vs IH]; intros l Hl; simpl; [done|].
  case_bool_decide as Hv; [by apply IH|].
  destruct (IH (l ++ [sub_delete paren_greedy v 0])) as [Hn Hs].
  - apply NoDup_app. split_and!; [done| |apply NoDup_singleton].
    intros x Hx ->%list_elem_of_singleton. done.
  - split; [done|]. intros y Hy. apply Hs, elem_of_app. by left.
Qed.

Lemma frame_removal_inv st st' : frame st st' → removal_inv st → removal_inv st'.
Proof.
  intros [_ [vs Ht] Hr _ _ _ _ _ _] (Hn1 & Hn2 & Hs). unfold removal_inv.
  rewrite Ht, Hr. destruct (request_removal_spec vs _ Hn1) as [Hn Hsub].
  split_and!; [done|done|set_solver].
Qed.

Lemma re_def_removal_inv st st' :
  re_def cfg st = Ok st' → removal_inv st → removal_inv st'.
Proof.
  intros (_ & Ht & _ & _ & _ & _ & var & Hr & _)%re_def_lists (Hn1 & Hn2 & Hs).
  unfold removal_inv. simpl in Hr. rewrite Ht, Hr. split_and!; [done| |].
  - apply NoDup_app. split_and!; [done| |].
    + intros x Hx (Hx' & _)%list_elem_of_filter. done.
    + by do 2 apply NoDup_filter.
  - intros x [Hx|Hx]%elem_of_app; [by apply Hs|].
    apply list_elem_of_filter in Hx as (_ & Hx).
    by apply list_elem_of_filter in Hx as (_ & Hx).
Qed.

Lemma lexer_removal_inv final st st' :
  lexer iter cfg final st = Ok st' → removal_inv st → removal_inv st'.
Proof.
  intros (st1 & st2 & st3 & st4 & m & H1 & H2 & H3 & H4 & H5)%lexer_Ok Hinv.
  assert (removal_inv st1) as Hinv1.
  { by destruct (re_module_same _ _ H1) as [->| ->]. }
  assert (removal_inv st2) as Hinv2.
  { unfold removal_inv in *.
    destruct (re_endmodule_same _ _ H2) as [->| ->]; simpl;
      by rewrite re_implicit_to_remove, re_implicit_removed. }
  apply re_def_removal_inv in H3; [|done].
  apply re_ser_frame in H4. apply (frame_removal_inv _ _ H4) in H3.
  assert (removal_inv (guard cfg m st4)) as Hinv4.
  { unfold removal_inv in *. destruct (guard_same m st4) as (_ & -> & -> & _). done. }
  destruct final; [apply final_check_same in H5|apply Ok_inj in H5]; by subst st'.
Qed.

Lemma parse_line_removal_inv generate st line st' :
  parse_line iter cfg generate st line = Ok st' → removal_inv st → removal_inv st'.
Proof.
  unfold parse_line. intros H Hinv. bind_inv H.
  match type of H with (if ?b then _ else _) = _ => destruct b end.
  - apply Ok_inj in H. by subst st'.
  - bind_inv H. apply Ok_inj in H. subst st'.
    apply lexer_removal_inv in Hx0; [|done]. by destruct generate.
Qed.

Lemma parse_lines_removal_inv generate lines st st' :
  parse_lines iter cfg generate st lines = Ok st' → removal_inv st → removal_inv st'.
Proof.
  revert st. induction lines as [|line lines IH]; intros st H Hinv; simpl in H.
  - apply Ok_inj in H. by subst.
  - bind_inv H. apply parse_line_removal_inv in Hx; [|done]. by apply IH in H.
Qed.

Lemma parse_removal_inv generate lines st st' :
  parse iter cfg generate lines st = Ok st' → removal_inv st → removal_inv st'.
Proof.
  unfold parse. intros H Hinv. bind_inv H. bind_inv H.
  apply check_removed_same in H. subst st'.
  apply parse_lines_removal_inv in Hx; [|done].
  by apply lexer_removal_inv in Hx0.
Qed.

(** Under the invariant, comparing the lengths of the two lists (as [parse]
    does) tells whether every requested field was found. *)
Lemma removal_inv_length st :
  removal_inv st →
  length (intentin_to_remove st) = length (intentin_removed st) ↔
  filter (λ x, x ∉ intentin_removed st) (intentin_to_remove st) = [].
Proof.
  intros (Hn1 & Hn2 & Hs).
  assert (intentin_removed st ⊆+ intentin_to_remove st) as Hsub
    by by apply NoDup_submseteq.
  split.
  - intros Hlen.
    assert (intentin_removed st ≡ₚ intentin_to_remove st) as Hp.
    { apply submseteq_length_Permutation; [done|lia]. }
    destruct (filter _ _) as [|y ys] eqn:Hf; [done|].
    assert (y ∈ filter (λ x, x ∉ intentin_removed st) (intentin_to_remove st)) as Hy
      by (rewrite Hf; left).
    apply list_elem_of_filter in Hy as [Hy1 Hy2]. by rewrite Hp in Hy1.
  - intros Hf.
    assert (intentin_to_remove st ⊆+ intentin_removed st) as Hsub'.
    { apply NoDup_submseteq; [done|]. intros x Hx.
      destruct (decide (x ∈ intentin_removed st)) as [|Hnx]; [done|].
      by destruct (filter_nil_not_elem_of _ _ x Hf Hnx). }
    apply submseteq_length in Hsub, Hsub'. lia.
Qed.

End EngineSteps.

(** ** The registry across the two passes *)

(** C2, as stated, fails: the symbol the analysis pass collected from
    [!$SER ON] is in the registry with which the generation pass starts. *)
Lemma registry_not_reset_counterexample :
  ∃ st1, parse elements cfg0 false (readlines file_on) init_state = Ok st1 ∧
         "fs_enable_serialization" ∈ p_calls (reset_flags st1).
Proof. eexists. split; [vm_compute; reflexivity|]. vm_compute. reflexivity. Qed.

(** C2, amended: the registry is created empty by the constructor, so it is
    empty when the analysis pass starts; [parse] does not reset it, so the
    generation pass starts with the symbols the analysis pass collected; and
    no pass ever takes a symbol out of it. *)
Theorem registry_kept_across_passes iter cfg lines st1 st2 :
  parse iter cfg false lines init_state = Ok st1 →
  parse iter cfg true lines st1 = Ok st2 →
  p_calls (reset_flags init_state) = ∅ ∧
  p_calls (reset_flags st1) = p_calls st1 ∧
  p_calls st1 ⊆ p_calls st2.
Proof.
  intros H1 H2. split_and!; [done|done|]. by eapply parse_calls.
Qed.

Lemma registry_kept_across_passes_witness :
  ∃ st1 st2,
    parse elements cfg0 false (readlines file_on) init_state = Ok st1 ∧
    parse elements cfg0 true (readlines file_on) st1 = Ok st2 ∧
    (p_calls (reset_flags init_state) = ∅ ∧
     p_calls (reset_flags st1) = p_calls st1 ∧
     p_calls st1 ⊆ p_calls st2).
Proof.
  eexists _, _.
  split; [vm_compute; reflexivity|].
  split; [vm_compute; reflexivity|].
  apply (registry_kept_across_passes elements cfg0 (readlines file_on));
    vm_compute; reflexivity.
Defined.

(** ** The INTENT(IN) removals requested and found *)

Lemma removal_inv_init : removal_inv init_state.
Proof. split_and!; [apply NoDup_nil_2|apply NoDup_nil_2|done]. Qed.

Lemma removal_inv_reset st : removal_inv st → removal_inv (reset_flags st).
Proof. done. Qed.


(** C8: at the end of the generation pass [parse] compares the two lists.
    With [st3] the state after the last call of the lexer and [missing] the
    names requested and not found (in the order of the requests), the
    transform ends well when [missing] is empty, that is when every name
    requested was found, and otherwise exits with the message that lists
    exactly [missing]. *)
Theorem removal_requests_checked iter cfg content st1 st3 :
  parse iter cfg false (readlines content) init_state = Ok st1 →
  parse_lines iter cfg true (reset_flags st1) (readlines content)
    ≫= lexer iter cfg true = Ok st3 →
  let missing := filter (λ x, x ∉ intentin_removed st3) (intentin_to_remove st3) in
  preprocess iter cfg content =
    match missing with
    | [] => Ok st3
    | _ => Exit (Report (infile cfg) (p_linenum st3) EmptyString
                   ("cannot find INTENT(IN) declaration for " +:+ join ", " missing)
                   (p_line st3))
    end ∧
  (missing = [] ↔ ∀ x, x ∈ intentin_to_remove st3 → x ∈ intentin_removed st3).
Proof.
  intros H1 H2 missing.
  assert (removal_inv st3) as Hinv.
  { bind_inv H2. eapply lexer_removal_inv; [exact H2|].
    eapply parse_lines_removal_inv; [exact Hx|].
    apply removal_inv_reset. eapply parse_removal_inv; [exact H1|].
    apply removal_inv_init. }
  split.
  - unfold preprocess. rewrite H1, bind_Ok_l. unfold parse.
    bind_inv H2. rewrite Hx, bind_Ok_l, H2, bind_Ok_l.
    unfold check_removed. fold missing.
    pose proof (removal_inv_length st3 Hinv) as Hlen. fold missing in Hlen.
    destruct (Nat.eqb_spec (length (intentin_to_remove st3))
                (length (intentin_removed st3))) as [He|Hne]; simpl.
    + apply Hlen in He. by rewrite He.
    + destruct missing as [|m ms]; [|done]. destruct Hne. by apply Hlen.
  - split.
    + intros Hm x Hx.
      destruct (decide (x ∈ intentin_removed st3)) as [|Hnx]; [done|].
      by destruct (filter_nil_not_elem_of _ _ x Hm Hnx).
    + intros Hall. subst missing.
      destruct (filter _ _) as [|y ys] eqn:Hf; [done|].
      assert (y ∈ filter (λ x, x ∉ intentin_removed st3) (intentin_to_remove st3)) as Hy
        by (rewrite Hf; left).
      apply list_elem_of_filter in Hy as [Hy1 Hy2]. destruct Hy1. by apply Hall.
Qed.

Lemma removal_requests_checked_witness :
  ∃ st1 st3,
    parse elements cfg0 false (readlines file_removal) init_state = Ok st1 ∧
    parse_lines elements cfg0 true (reset_flags st1) (readlines file_removal)
      ≫= lexer elements cfg0 true = Ok st3 ∧
    intentin_to_remove st3 = ["v"; "q"; "z"] ∧
    intentin_removed st3 = ["z"] ∧
    preprocess elements cfg0 file_removal =
      Exit (Report "t.f90" 5 EmptyString
              "cannot find INTENT(IN) declaration for v, q" EmptyString).
Proof.
  eexists _, _.
  split; [vm_compute; reflexivity|].
  split; [vm_compute; reflexivity|].
  split; [vm_compute; reflexivity|].
  split; [vm_compute; reflexivity|].
  edestruct (removal_requests_checked elements cfg0 file_removal) as [H _];
    [vm_compute; reflexivity|vm_compute; reflexivity|].
  rewrite H. vm_compute. reflexivity.
Defined.

(** ** Files without directives *)

Section Plain.
Context (iter : gset string → list string) (cfg : config).
(** Iterating over a set visits its elements, each once. *)
Hypothesis iter_perm : ∀ s, iter s ≡ₚ elements s.

Lemma iter_empty : iter ∅ = [].
Proof. apply Permutation_nil_r. by rewrite iter_perm, elements_empty. Qed.

(** With no calls collected, [__re_implicit] only notes the statement. *)
Lemma re_implicit_no_calls st :
  p_calls st = ∅ →
  re_implicit iter cfg st = st ∨ re_implicit iter cfg st = set_found true st.
Proof.
  intros Hc. unfold re_implicit.
  destruct (re_implicit_match (p_line st)); [|by left].
  right. rewrite Hc, iter_empty. reflexivity.
Qed.

Lemma plain_set_module v st : plain st → plain (set_module v st).
Proof. by intros []. Qed.

Lemma plain_set_found v st : plain st → plain (set_found v st).
Proof. by intros []. Qed.

(** On a line that is no directive the lexer changes neither the line nor
    the output, and the state stays plain. *)
Lemma lexer_plain final st st' :
  plain st → re_ser_match (p_line st) = None →
  lexer iter cfg final st = Ok st' →
  plain st' ∧ p_line st' = p_line st ∧ p_outputBuffer st' = p_outputBuffer st.
Proof.
  intros Hp Hs (st1 & st2 & st3 & st4 & m & H1 & H2 & H3 & H4 & H5)%lexer_Ok.
  assert (plain st1 ∧ p_line st1 = p_line st ∧ p_outputBuffer st1 = p_outputBuffer st)
    as (Hp1 & Hl1 & Ho1).
  { destruct (re_module_same _ _ _ H1) as [->| ->]; [done|].
    split; [by apply plain_set_module|done]. }
  assert (plain st2 ∧ p_line st2 = p_line st ∧ p_outputBuffer st2 = p_outputBuffer st)
    as (Hp2 & Hl2 & Ho2).
  { destruct (re_implicit_no_calls st1 (plain_calls _ Hp1)) as [Hi|Hi];
      rewrite Hi in H2; destruct (re_endmodule_same _ _ _ H2) as [->| ->];
      split_and!; auto using plain_set_module, plain_set_found. }
  assert (plain st3 ∧ p_line st3 = p_line st ∧ p_outputBuffer st3 = p_outputBuffer st)
    as (Hp3 & Hl3 & Ho3).
  { apply re_def_lists in H3 as (Hc & Ht & Hser & _ & Hd & Ho & var & Hr & Hl).
    destruct Hp2 as [Hc2 Ht2 Hr2 Hs2 Hd2]. simpl in Hr, Hl.
    rewrite Ht2 in Hr, Hl. rewrite Hr2, !filter_nil in Hr.
    simpl in Hr. split_and!; [split; congruence| |congruence].
    rewrite Hl; [done|]. apply filter_nil. }
  unfold re_ser in H4. rewrite Hl3, Hs in H4. apply Ok_inj in H4. simplify_eq.
  assert (guard cfg false st4 = st4) as Hg.
  { unfold guard. rewrite (plain_ser _ Hp3). by rewrite andb_false_r. }
  rewrite Hg in H5.
  destruct final; [apply final_check_same in H5|apply Ok_inj in H5]; by subst st'.
Qed.

(** One line of a file without directives goes to the output as it is. *)
Lemma parse_line_plain generate st line st' :
  plain st → p_line st = EmptyString → re_ser_match line = None →
  parse_line iter cfg generate st line = Ok st' →
  plain st' ∧ p_line st' = EmptyString ∧
  p_outputBuffer st' =
    if generate then p_outputBuffer st +:+ line else p_outputBuffer st.
Proof.
  intros Hp Hl Hs. unfold parse_line. rewrite Hl. simpl truthy. cbv iota.
  rewrite bind_Ok_l, sapp_nil_l. simpl p_line.
  destruct (re_cont_out line) eqn:Hc; [by apply re_cont_out_re_ser in Hc|].
  intros H. bind_inv H. apply Ok_inj in H. subst st'.
  apply lexer_plain in Hx as (Hp' & Hl' & Ho'); [| by destruct Hp | done].
  destruct Hp' as [? ? ? ? ?].
  destruct generate; simpl; rewrite ?Hl', ?Ho'; simpl; done.
Qed.

Lemma parse_lines_plain generate lines st st' :
  plain st → p_line st = EmptyString →
  Forall (λ l, re_ser_match l = None) lines →
  parse_lines iter cfg generate st lines = Ok st' →
  plain st' ∧ p_line st' = EmptyString ∧
  p_outputBuffer st' =
    if generate then p_outputBuffer st +:+ sconcat lines else p_outputBuffer st.
Proof.
  intros Hp Hl Hall. revert st Hp Hl.
  induction Hall as [|line lines Hline Hall IH]; intros st Hp Hl H; simpl in H.
  - apply Ok_inj in H. subst st'. split_and!; [done..|].
    destruct generate; [|done]. by rewrite sapp_nil_r.
  - bind_inv H. apply parse_line_plain in Hx as (Hp' & Hl' & Ho'); [|done..].
    apply IH in H as (Hp'' & Hl'' & Ho''); [|done..].
    split_and!; [done..|]. rewrite Ho'', Ho'.
    destruct generate; [|done]. simpl. by rewrite sapp_assoc.
Qed.

Lemma parse_plain generate lines st st' :
  plain st → Forall (λ l, re_ser_match l = None) lines →
  parse iter cfg generate lines st = Ok st' →
  plain st' ∧ p_outputBuffer st' = if generate then sconcat lines else EmptyString.
Proof.
  intros Hp Hall. unfold parse. intros H. bind_inv H. bind_inv H.
  apply check_removed_same in H. subst st'.
  apply parse_lines_plain in Hx as (Hp' & Hl' & Ho'); [|by destruct Hp|done..].
  apply lexer_plain in Hx0 as (Hp'' & _ & Ho''); [|done|by rewrite Hl'].
  split; [done|]. rewrite Ho'', Ho'. by destruct generate.
Qed.

(** C9, amended: a file none of whose lines is a directive line, when it
    is processed without a fatal error, leaves the registry empty at the end
    of both passes, has no import block inserted and no guard open, and its
    output buffer is the input as it is read, with CR LF and CR alone turned
    into a line feed; where the input holds no carriage return the output
    buffer is the input, byte for byte. *)
Theorem no_directive_output_is_input content st1 st2 :
  Forall (λ l, re_ser_match l = None) (readlines content) →
  parse iter cfg false (readlines content) init_state = Ok st1 →
  parse iter cfg true (readlines content) st1 = Ok st2 →
  p_calls st1 = ∅ ∧ p_calls st2 = ∅ ∧
  p_implicitnone_done st2 = false ∧ p_ser st2 = false ∧
  p_outputBuffer st2 = universal_newlines content ∧
  (has_char CRc content = false → p_outputBuffer st2 = content).
Proof.
  intros Hall H1 H2.
  apply parse_plain in H1 as (Hp1 & _); [|done..].
  apply parse_plain in H2 as (Hp2 & Ho2); [|done..].
  destruct Hp1, Hp2. split_and!; try done.
  - by rewrite Ho2, sconcat_readlines.
  - intros Hcr. by rewrite Ho2, sconcat_readlines, universal_newlines_no_cr.
Qed.

End Plain.

(** C9, as stated, fails: this file has no directive line and is processed
    without error, but its line ends with CR LF and the output buffer holds
    the line feed alone. *)
Lemma crlf_output_differs_counterexample :
  ∃ st1 st2,
    Forall (λ l, re_ser_match l = None) (readlines file_crlf) ∧
    parse elements cfg0 false (readlines file_crlf) init_state = Ok st1 ∧
    parse elements cfg0 true (readlines file_crlf) st1 = Ok st2 ∧
    p_outputBuffer st2 = "x = 1" +:+ NL ∧
    p_outputBuffer st2 ≠ file_crlf.
Proof.
  eexists _, _. split; [apply (bool_decide_unpack _); vm_compute; exact I|].
  split; [vm_compute; reflexivity|]. split; [vm_compute; reflexivity|].
  split; [vm_compute; reflexivity|]. vm_compute. discriminate.
Qed.

Lemma no_directive_output_is_input_witness :
  ∃ st1 st2,
    parse elements cfg0 false (readlines file_plain) init_state = Ok st1 ∧
    parse elements cfg0 true (readlines file_plain) st1 = Ok st2 ∧
    (p_calls st1 = ∅ ∧ p_calls st2 = ∅ ∧
     p_implicitnone_done st2 = false ∧ p_ser st2 = false ∧
     p_outputBuffer st2 = file_plain).
Proof.
  eexists _, _.
  split; [vm_compute; reflexivity|].
  split; [vm_compute; reflexivity|].
  edestruct (no_directive_output_is_input elements cfg0 (λ s, reflexivity _) file_plain)
    as (H1 & H2 & H3 & H4 & _ & H6);
    [apply (bool_decide_unpack _); vm_compute; exact I
    |vm_compute; reflexivity|vm_compute; reflexivity|].
  split_and!; [exact H1|exact H2|exact H3|exact H4|apply H6; reflexivity].
Defined.

(** ** Directive lines are comment lines *)

Lemma eq_ci_bang c : eq_ci "!" c = true → c = "!"%char.
Proof. destruct c as [[] [] [] [] [] [] [] []]; vm_compute; congruence. Qed.

Lemma eq_ci_trans_false a b c : eq_ci a c = true → eq_ci b a = false → eq_ci b c = false.
Proof.
  unfold eq_ci. intros H%Ascii.eqb_eq. by rewrite H.
Qed.

Lemma bang_cons c r :
  bang (String c r) ↔ (c = " "%char ∧ bang r) ∨ c = "!"%char.
Proof.
  unfold bang. rewrite skip_spaces_cons.
  destruct (Ascii.eqb_spec c " ") as [->|Hc].
  - split; [by left|]. intros [[_ H]|H]; [done|discriminate].
  - split.
    + intros [x Hx]. right. congruence.
    + intros [[H _]|H]; [done|]. subst c. by eexists.
Qed.

Lemma bang_nil : ¬ bang EmptyString.
Proof. by intros [r Hr]. Qed.

Lemma bang_truthy s : bang s → truthy s = true.
Proof. destruct s; [by intros ?%bang_nil|done]. Qed.

Lemma ser_prefix_bang l r : ser_prefix l = Some r → bang l.
Proof.
  unfold ser_prefix, bang. destruct (skip_spaces l) as [|c x]; [done|].
  simpl. destruct (eq_ci "!" c) eqn:Hc; [|done].
  apply eq_ci_bang in Hc. subst c. by eexists.
Qed.

Lemma re_cont_out_bang l : re_cont_out l = true → bang l.
Proof.
  unfold re_cont_out. destruct (ser_prefix l) as [r|] eqn:H; [|done].
  intros _. by eapply ser_prefix_bang.
Qed.

Lemma bang_app p x : bang p → bang (p +:+ x).
Proof.
  induction p as [|c p IH]; [by intros ?%bang_nil|].
  rewrite sapp_cons, !bang_cons. intros [[-> H]| ->]; auto.
Qed.

Lemma bang_chop_amp l : bang l → bang (chop_amp l).
Proof.
  induction l as [|c l IH]; [done|].
  intros H. pose proof H as [[-> Hl]| ->]%bang_cons.
  - destruct Hl as [x Hx]. simpl. rewrite Hx. simpl.
    apply bang_cons. left. split; [done|]. apply IH. by eexists.
  - simpl. apply bang_cons. by right.
Qed.

Lemma bang_rstrip l : bang l → bang (rstrip l).
Proof.
  induction l as [|c l IH]; [done|].
  intros [[-> Hl]| ->]%bang_cons; simpl.
  - specialize (IH Hl). destruct (rstrip l) as [|d r]; [by apply bang_nil in IH|].
    apply bang_cons. by left.
  - destruct (rstrip l); apply bang_cons; by right.
Qed.

(** None of the scope statements is recognised on a comment line. *)
Lemma bang_not_implicit s : bang s → re_implicit_match s = false.
Proof. intros [r Hr]. unfold re_implicit_match. by rewrite Hr. Qed.

Lemma bang_not_module s : bang s → re_module_match s = None.
Proof. intros [r Hr]. unfold re_module_match. by rewrite Hr. Qed.

Lemma bang_not_endmodule s : bang s → re_endmodule_match s = None.
Proof. intros [r Hr]. unfold re_endmodule_match. by rewrite Hr. Qed.

(** ** The directive marker alone *)






Section Marker.
Context (iter : gset string → list string) (cfg : config).


End Marker.


(** ** Files without the IMPLICIT NONE statement *)

Section NoAnchor.
Context (iter : gset string → list string) (cfg : config).

(** Where the statement is not on the line, the lexer does not note it. *)
Lemma lexer_found final st st' :
  re_implicit_match (p_line st) = false →
  lexer iter cfg final st = Ok st' →
  p_implicitnone_found st' = p_implicitnone_found st.
Proof.
  intros Hm (st1 & st2 & st3 & st4 & m & H1 & H2 & H3 & H4 & H5)%lexer_Ok.
  assert (p_implicitnone_found st1 = p_implicitnone_found st ∧ p_line st1 = p_line st)
    as [Hf1 Hl1].
  { by destruct (re_module_same _ _ _ H1) as [->| ->]. }
  rewrite re_implicit_nomatch in H2 by by rewrite Hl1.
  assert (p_implicitnone_found st2 = p_implicitnone_found st1) as Hf2.
  { by destruct (re_endmodule_same _ _ _ H2) as [->| ->]. }
  apply re_def_lists in H3 as (_ & _ & _ & Hf3 & _).
  apply re_ser_frame in H4. destruct H4 as [_ _ _ _ _ _ _ Hf4 _].
  destruct (guard_same cfg m st4) as (_ & _ & _ & Hf5 & _).
  assert (st' = guard cfg m st4) as ->.
  { destruct final; [by apply final_check_same in H5|by apply Ok_inj in H5]. }
  congruence.
Qed.

Lemma parse_line_no_anchor generate st line st' :
  no_anchor_yet st → re_implicit_match line = false →
  parse_line iter cfg generate st line = Ok st' → no_anchor_yet st'.
Proof.
  intros [Hf Hl] Hline. unfold parse_line. intros H. bind_inv H.
  set (l := p_line st +:+ x) in *.
  assert (re_implicit_match l = false ∧ (re_cont_out l = true → bang l)) as [Hm Hb].
  { subst l. destruct (truthy (p_line st)) eqn:Ht.
    - destruct Hl as [Hl|Hl]; [by rewrite Hl in Ht|].
      split; [|intros _]; [apply bang_not_implicit|]; by apply bang_app.
    - destruct (p_line st); [|done]. rewrite sapp_nil_l.
      apply Ok_inj in Hx. subst x. split; [done|apply re_cont_out_bang]. }
  simpl p_line in H. fold l in H.
  destruct (re_cont_out l).
  - apply Ok_inj in H. subst st'. split; [done|]. right. simpl.
    by apply bang_rstrip, bang_chop_amp, Hb.
  - bind_inv H. apply Ok_inj in H. subst st'.
    apply lexer_found in Hx0; [|done]. split; [|by left].
    destruct generate; simpl; by rewrite Hx0.
Qed.

Lemma parse_lines_no_anchor generate lines st st' :
  no_anchor_yet st → Forall (λ l, re_implicit_match l = false) lines →
  parse_lines iter cfg generate st lines = Ok st' → no_anchor_yet st'.
Proof.
  intros Hst Hall. revert st Hst.
  induction Hall as [|line lines Hline Hall IH]; intros st Hst H; simpl in H.
  - apply Ok_inj in H. by subst.
  - bind_inv H. apply parse_line_no_anchor in Hx; [|done..]. by apply IH in H.
Qed.

(** C7, amended: in a file none of whose lines has the IMPLICIT NONE
    statement, a pass that ends without a fatal error has collected no
    call: as soon as a directive that refers to a symbol of the
    serialization modules has run, processing aborts. Directives that refer
    to none (VERBATIM, ZERO, the marker alone) do not need the statement. *)
Theorem no_anchor_no_calls generate lines st st' :
  Forall (λ l, re_implicit_match l = false) lines →
  parse iter cfg generate lines st = Ok st' →
  p_calls st' = ∅.
Proof.
  intros Hall. unfold parse. intros H. bind_inv H. bind_inv H.
  apply check_removed_same in H. subst st'.
  apply parse_lines_no_anchor in Hx as [Hf Hl]; [|by split; [|left]|done].
  assert (re_implicit_match (p_line x) = false) as Hm.
  { destruct Hl as [-> |Hb]; [done|by apply bang_not_implicit]. }
  pose proof (lexer_found _ _ _ Hm Hx0) as Hf'. rewrite Hf in Hf'.
  apply lexer_Ok in Hx0 as (st1 & st2 & st3 & st4 & m & _ & _ & _ & _ & H5).
  pose proof (final_check_same _ _ _ H5) as ->.
  unfold final_check in H5.
  destruct (p_ser (guard cfg m st4)); [done|].
  destruct (truthy (p_module (guard cfg m st4))); [done|].
  rewrite Hf' in H5. simpl in H5.
  destruct (Nat.ltb_spec 0 (size (p_calls (guard cfg m st4)))) as [Hlt|Hge]; [done|].
  apply leibniz_equiv, size_empty_inv. lia.
Qed.

End NoAnchor.

(** C7, as stated, fails: this file has a directive line and no IMPLICIT
    NONE statement, and is processed to the end. *)
Lemma directive_without_anchor_counterexample :
  Forall (λ l, re_implicit_match l = false) (readlines file_verbatim) ∧
  re_ser_match ("!$SER VERBATIM x = 1" +:+ NL) = Some "VERBATIM x = 1" ∧
  ∃ st, preprocess elements cfg0 file_verbatim = Ok st ∧
        p_outputBuffer st =
          text ["#ifdef SERIALIZE"; "x = 1"; "#endif"; "y = 2"].
Proof.
  split; [apply (bool_decide_unpack _); vm_compute; exact I|].
  split; [reflexivity|].
  eexists. split; vm_compute; reflexivity.
Qed.

Lemma no_anchor_no_calls_witness :
  ∃ st, parse elements cfg0 true (readlines file_verbatim) init_state = Ok st ∧
        p_calls st = ∅.
Proof.
  eexists. split; [vm_compute; reflexivity|].
  apply (no_anchor_no_calls elements cfg0 true (readlines file_verbatim) init_state).
  - apply (bool_decide_unpack _). vm_compute. exact I.
  - vm_compute. reflexivity.
Defined.

(** ** The condition of a directive *)

Section ArgParse.
Context (cfg : config).

Lemma split_char_nonempty sep s : split_char sep s ≠ [].
Proof.
  destruct s as [|c s]; [done|]. simpl.
  destruct (Ascii.eqb c sep); [done|]. by destruct (split_char sep s).
Qed.

(** After the expression of the condition, another marker is skipped and
    anything else is an error. *)
Lemma arg_loop_after_expression st kw post dirs keys values e :
  truthy e = true →
  arg_loop cfg st kw post dirs keys values true e =
    match filter (λ a, is_if a = false) post with
    | [] => Ok (dirs, keys, values, e)
    | _ => exit_error cfg st kw "IF statement must be last argument"
    end.
Proof.
  intros He. induction post as [|a post IH]; [done|].
  simpl. rewrite filter_cons. fold (is_if a).
  destruct (is_if a) eqn:Ha.
  - by rewrite decide_False by done.
  - rewrite decide_True by done. by rewrite He.
Qed.

(** After the marker, the first argument that is no marker is the
    expression. *)
Lemma arg_loop_after_marker st kw post dirs keys values :
  Forall (λ a, truthy a = true) post →
  arg_loop cfg st kw post dirs keys values true EmptyString =
    match filter (λ a, is_if a = false) post with
    | [] => Ok (dirs, keys, values, EmptyString)
    | [e] => Ok (dirs, keys, values, e)
    | _ => exit_error cfg st kw "IF statement must be last argument"
    end.
Proof.
  induction 1 as [|a post Ha Hpost IH]; [done|].
  simpl. rewrite filter_cons. fold (is_if a).
  destruct (is_if a) eqn:Hif.
  - by rewrite decide_False by done.
  - rewrite decide_True by done.
    rewrite arg_loop_after_expression by done.
    by destruct (filter _ post).
Qed.

(** Before the marker, arguments with at most one [=] are taken in. *)
Lemma arg_loop_before_marker st kw pre rest dirs keys values :
  Forall (λ a, is_if a = false ∧ length (split_char "=" a) ≤ 2) pre →
  ∃ dirs' keys' values',
    arg_loop cfg st kw (pre ++ rest) dirs keys values false EmptyString =
    arg_loop cfg st kw rest dirs' keys' values' false EmptyString.
Proof.
  intros Hpre. revert dirs keys values.
  induction Hpre as [|a pre [Hif Hlen] Hpre IH]; intros dirs keys values.
  - by eexists _, _, _.
  - simpl. fold (is_if a). rewrite Hif.
    pose proof (split_char_nonempty "=" a) as Hne.
    destruct (split_char "=" a) as [|v0 [|v1 [|v2 vs]]];
      [done|apply IH|apply IH|simpl in Hlen; lia].
Qed.

(** C5, amended: let the arguments be [pre], a marker of the condition and
    [post], where the arguments of [pre] are no markers and hold at most one
    [=], and no argument is empty (the tokenizer yields none). Further
    markers in [post] are skipped. When two or more arguments of [post] are
    no markers, parsing aborts with the error that the condition must be
    the last argument; with one, it is the expression of the condition;
    with none, there is no condition. *)
Theorem condition_must_be_last st kw pre m post :
  Forall (λ a, is_if a = false ∧ length (split_char "=" a) ≤ 2) pre →
  is_if m = true →
  Forall (λ a, truthy a = true) post →
  ∃ dirs keys values,
    ser_arg_parse cfg st (kw :: pre ++ m :: post) =
      match filter (λ a, is_if a = false) post with
      | [] => Ok (dirs, keys, values, EmptyString)
      | [e] => Ok (dirs, keys, values, e)
      | _ => exit_error cfg st kw "IF statement must be last argument"
      end.
Proof.
  intros Hpre Hm Hpost.
  change (ser_arg_parse cfg st (kw :: pre ++ m :: post))
    with (arg_loop cfg st kw (pre ++ m :: post) [] [] [] false EmptyString).
  destruct (arg_loop_before_marker st kw pre (m :: post) [] [] [] Hpre)
    as (dirs & keys & values & ->).
  exists dirs, keys, values. simpl. fold (is_if m). rewrite Hm.
  by apply arg_loop_after_marker.
Qed.

End ArgParse.

(** C5, as stated, fails: here the marker is followed by two arguments and
    parsing ends well, the second marker being skipped; and where an
    argument before the marker holds two [=], parsing aborts with the error
    of that argument. *)
Lemma condition_counterexample :
  ser_arg_parse cfg0 init_state ["DATA"; "a=b"; "IF"; "x>0"; "if"]
    = Ok ([], ["a"], ["b"], "x>0") ∧
  ser_arg_parse cfg0 init_state ["DATA"; "a=b=c"; "IF"; "x>0"; "y"]
    = Exit (Report "t.f90" 0 "DATA"
              "Problem extracting arguments and key=value pairs" EmptyString).
Proof. split; reflexivity. Qed.

Lemma condition_must_be_last_witness :
  ∃ dirs keys values,
    ser_arg_parse cfg0 init_state (["DATA"; "a=b"] ++ "If" :: ["x>0"; "IF"; "y"])
    = Exit (Report "t.f90" 0 "DATA" "IF statement must be last argument" EmptyString) ∧
    ser_arg_parse cfg0 init_state (["DATA"; "a=b"] ++ "If" :: ["x>0"; "IF"])
    = Ok (dirs, keys, values, "x>0").
Proof.
  destruct (condition_must_be_last cfg0 init_state "DATA" ["a=b"] "If" ["x>0"; "IF"; "y"])
    as (d1 & k1 & v1 & H1);
    [apply (bool_decide_unpack _); vm_compute; exact I | reflexivity
    |apply (bool_decide_unpack _); vm_compute; exact I |].
  destruct (condition_must_be_last cfg0 init_state "DATA" ["a=b"] "If" ["x>0"; "IF"])
    as (d2 & k2 & v2 & H2);
    [apply (bool_decide_unpack _); vm_compute; exact I | reflexivity
    |apply (bool_decide_unpack _); vm_compute; exact I |].
  exists d2, k2, v2. split; [exact H1|exact H2].
Defined.

(** ** The declared type of REGISTER *)

(** C6: a declared type that is not in the table does not end with a
    report of [__exit_error] (file name, line number, message): the lookup
    in the table raises [KeyError], which nothing catches. The handler that
    reports the unknown type is commented out in the source. *)
Theorem register_unknown_type_raises cfg st args name type sizes keys values if_statement :
  ser_arg_parse cfg st args = Ok (name :: type :: sizes, keys, values, if_statement) →
  datatypes !! type = None →
  ser_register cfg st args = Raise (KeyError type).
Proof.
  intros Hp Ht. unfold ser_register. rewrite Hp, bind_Ok_l.
  change (length (name :: type :: sizes) <? 2) with false. cbv iota.
  destruct (length (name :: type :: sizes) =? 2); simpl; by rewrite Ht.
Qed.

(** The directive [!$SER REG u fs_realtype IJK] of the test of the source. *)
Lemma register_unknown_type_raises_witness :
  ser_register cfg0 init_state ["REG"; "u"; "fs_realtype"; "IJK"]
  = Raise (KeyError "fs_realtype").
Proof.
  apply (register_unknown_type_raises cfg0 init_state _ "u" "fs_realtype" ["IJK"] [] []
           EmptyString); vm_compute; reflexivity.
Defined.

(** The two types of the table are written as their pairs of constants. *)
Lemma register_known_types :
  p_line <$> output_state (ser_register cfg0 init_state ["REGISTER"; "n"; "integer"; "1"])
  = Some ("call fs_register_field(ppser_serializer, 'n', 'int', ppser_intlength, 1)" +:+ NL) ∧
  p_line <$> output_state (ser_register cfg0 init_state ["REGISTER"; "dts"; "real"])
  = Some ("call fs_register_field(ppser_serializer, 'dts', ppser_realtype, "
          +:+ "ppser_reallength, 1, 1, 1, 1, 0, 0, 0, 0, 0, 0, 0, 0)" +:+ NL).
Proof. split; vm_compute; reflexivity. Qed.

(** ** The order of the symbols in the import block *)

(** Both orders list the elements of the set, each once. *)
Lemma reverse_elements_perm (s : gset string) : reverse (elements s) ≡ₚ elements s.
Proof. apply reverse_Permutation. Qed.

(** C4: the same file and the same configuration, and two orders in which
    the set of the two calls it collects may be iterated: both runs end
    well, and the two output buffers differ in the import of the
    serialization module, which names the calls in the order of the
    iteration. *)
Theorem output_follows_iteration_order :
  output (preprocess elements cfg0 file_on_off)
  = Ok (text [EmptyString; "#ifdef SERIALIZE";
              "USE m_serialize, ONLY: fs_enable_serialization, fs_disable_serialization";
              "USE utils_ppser, ONLY: ppser_savepoint, ppser_serializer, "
              +:+ "ppser_serializer_ref, ppser_intlength, ppser_reallength, ppser_realtype";
              "#endif"; EmptyString; "implicit none";
              "#ifdef SERIALIZE"; "call fs_enable_serialization()";
              "call fs_disable_serialization()"; "#endif"; "x = 1"]) ∧
  output (preprocess (λ s, reverse (elements s)) cfg0 file_on_off)
  = Ok (text [EmptyString; "#ifdef SERIALIZE";
              "USE m_serialize, ONLY: fs_disable_serialization, fs_enable_serialization";
              "USE utils_ppser, ONLY: ppser_savepoint, ppser_serializer, "
              +:+ "ppser_serializer_ref, ppser_intlength, ppser_reallength, ppser_realtype";
              "#endif"; EmptyString; "implicit none";
              "#ifdef SERIALIZE"; "call fs_enable_serialization()";
              "call fs_disable_serialization()"; "#endif"; "x = 1"]) ∧
  output (preprocess elements cfg0 file_on_off)
  ≠ output (preprocess (λ s, reverse (elements s)) cfg0 file_on_off).
Proof. split_and!; [vm_compute; reflexivity..|vm_compute; discriminate]. Qed.

(** ** The guard at the end of the file *)

(** At the end of a file whose last line is complete, the last call of the
    lexer sees an empty line: it takes the branch of the lines that are no
    directives, which closes the guard state before the final check reads
    it. The [#endif] it writes stays in the current line, which [parse]
    does not put in the output. *)
Lemma final_lexer_on_empty_line iter cfg st :
  p_line st = EmptyString →
  lexer iter cfg true st = final_check cfg (guard cfg false st) ∧
  (truthy (ifdef cfg) = true → p_ser (guard cfg false st) = false) ∧
  p_outputBuffer (guard cfg false st) = p_outputBuffer st.
Proof.
  intros Hl. split_and!.
  - unfold lexer.
    assert (re_module cfg st = Ok st) as -> by (unfold re_module; by rewrite Hl).
    rewrite bind_Ok_l, re_implicit_nomatch by by rewrite Hl.
    assert (re_endmodule cfg st = Ok st) as -> by (unfold re_endmodule; by rewrite Hl).
    rewrite bind_Ok_l.
    assert (re_def cfg st = Ok st) as -> by (unfold re_def; by rewrite Hl).
    rewrite bind_Ok_l.
    assert (re_ser cfg st = Ok (st, false)) as -> by (unfold re_ser; by rewrite Hl).
    by rewrite bind_Ok_l.
  - intros Hi. unfold guard. rewrite Hi. by destruct (p_ser st) eqn:Hs.
  - apply guard_same.
Qed.

(** C1: this file ends with a directive line. It is processed to the end
    without error, and its output opens a guard that nothing closes: the
    last call of the lexer, made on an empty line, closes the guard state
    before it is checked, and what that call writes is not put in the
    output. *)
Theorem guard_left_open_at_end :
  output (preprocess elements cfg0 file_open_guard)
  = Ok (text [EmptyString; "#ifdef SERIALIZE";
              "USE m_serialize, ONLY: fs_enable_serialization";
              "USE utils_ppser, ONLY: ppser_savepoint, ppser_serializer, "
                +:+ "ppser_serializer_ref, ppser_intlength, ppser_reallength, ppser_realtype";
              "#endif"; EmptyString; "implicit none";
              "#ifdef SERIALIZE"; "call fs_enable_serialization()"]).
Proof. vm_compute. reflexivity. Qed.

(** ** Continuation lines *)

(** C3: the directive written on one line, and split over three lines with
    the continuation prefix in lower case, give the same output; with the
    prefix in upper case, which the test for a continuation line accepts,
    the prefix is left in the line and the output differs. *)
Theorem upper_case_continuation_differs :
  output (preprocess elements cfg0 file_one_line)
    = Ok (text ["#ifdef SERIALIZE"; "a = 1 + 2 + 3"; "#endif"; "b = 2"]) ∧
  output (preprocess elements cfg0 file_split_lower)
    = output (preprocess elements cfg0 file_one_line) ∧
  output (preprocess elements cfg0 file_split_upper)
    = Ok (text ["#ifdef SERIALIZE"; "a = 1!$SER& + 2!$SER& + 3"; "#endif"; "b = 2"]).
Proof. split_and!; vm_compute; reflexivity. Qed.

(** ** Continuation lines with the prefix in lower case *)

Lemma has_char_app c s t : has_char c (s +:+ t) = has_char c s || has_char c t.
Proof.
  induction s as [|d s IH]; [done|].
  rewrite sapp_cons. simpl. by rewrite IH, orb_assoc.
Qed.

Lemma all_spaces_skip s : all_spaces s = true → skip_spaces s = EmptyString.
Proof.
  induction s as [|c s IH]; [done|]. simpl all_spaces.
  intros [Hc Hs]%andb_true_iff. rewrite skip_spaces_cons, Hc. auto.
Qed.

Lemma all_spaces_rstrip s : all_spaces s = true → rstrip s = EmptyString.
Proof.
  induction s as [|c s IH]; [done|]. simpl all_spaces.
  intros [Hc%Ascii.eqb_eq Hs]%andb_true_iff. subst c. simpl. by rewrite IH.
Qed.

Lemma skip_spaces_app s t :
  all_spaces s = false → skip_spaces (s +:+ t) = skip_spaces s +:+ t.
Proof.
  induction s as [|c s IH]; [done|]. simpl all_spaces.
  rewrite sapp_cons, !skip_spaces_cons.
  destruct (Ascii.eqb c " "); [|by rewrite sapp_cons]. simpl. apply IH.
Qed.

Lemma skip_spaces_all_spaces s t :
  all_spaces s = true → skip_spaces (s +:+ t) = skip_spaces t.
Proof.
  induction s as [|c s IH]; [done|]. simpl all_spaces.
  intros [Hc Hs]%andb_true_iff. rewrite sapp_cons, skip_spaces_cons, Hc. auto.
Qed.

Lemma skip_spaces_first s c r : skip_spaces s = String c r → c ≠ " "%char.
Proof.
  induction s as [|d s IH]; [done|]. rewrite skip_spaces_cons.
  destruct (Ascii.eqb_spec d " "); [done|]. congruence.
Qed.

Lemma skip_spaces_nil s : skip_spaces s = EmptyString → all_spaces s = true.
Proof.
  induction s as [|d s IH]; [done|]. rewrite skip_spaces_cons. simpl.
  destruct (Ascii.eqb d " "); [done|discriminate].
Qed.

(** Where [ +& *$] matches in a line that ends with the continuation
    character. *)
Lemma amp_tail_continued c p :
  amp_tail (String c (p +:+ " &" +:+ NL)) =
    if Ascii.eqb c " " && all_spaces p then Some NL else None.
Proof.
  unfold amp_tail. destruct (Ascii.eqb c " "); [|done]. simpl andb.
  destruct (all_spaces p) eqn:Hp.
  - by rewrite skip_spaces_all_spaces.
  - rewrite skip_spaces_app by done.
    destruct (skip_spaces p) as [|d q] eqn:Hq.
    { apply skip_spaces_nil in Hq. congruence. }
    rewrite sapp_cons. destruct (Ascii.eqb d "&"); [|done].
    destruct (all_spaces q) eqn:Hall.
    + by rewrite skip_spaces_all_spaces.
    + rewrite skip_spaces_app by done.
      destruct (skip_spaces q) as [|e q'] eqn:Hq'.
      { apply skip_spaces_nil in Hq'. congruence. }
      rewrite sapp_cons. by destruct q'.
Qed.

Lemma rstrip_cons c r :
  rstrip (String c r) =
    match rstrip r with
    | EmptyString => if is_space_c c then EmptyString else String c EmptyString
    | r' => String c r'
    end.
Proof. reflexivity. Qed.

(** Chopping the continuation character gives back the line before it. *)
Lemma rstrip_chop_amp p : rstrip (chop_amp (p +:+ " &" +:+ NL)) = rstrip p.
Proof.
  induction p as [|c p IH]; [done|].
  rewrite sapp_cons.
  change (chop_amp (String c (p +:+ " &" +:+ NL)))
    with (match amp_tail (String c (p +:+ " &" +:+ NL)) with
          | Some t => t
          | None => String c (chop_amp (p +:+ " &" +:+ NL))
          end).
  rewrite amp_tail_continued.
  destruct (Ascii.eqb_spec c " ") as [->|Hc]; simpl andb.
  - destruct (all_spaces p) eqn:Hp.
    + change (rstrip NL) with EmptyString.
      by rewrite rstrip_cons, all_spaces_rstrip.
    + by rewrite !rstrip_cons, IH.
  - by rewrite !rstrip_cons, IH.
Qed.

Lemma rstrip_app a b :
  rstrip b = b → b ≠ EmptyString → rstrip (a +:+ b) = a +:+ b.
Proof.
  intros Hb Hne. induction a as [|c a IH]; [done|].
  rewrite sapp_cons, rstrip_cons, IH.
  destruct (a +:+ b) eqn:Hab; [|done].
  destruct a; [|done]. by rewrite sapp_nil_l in Hab.
Qed.

Lemma strip_prefix_ci_app q s r x :
  strip_prefix_ci q s = Some r → strip_prefix_ci q (s +:+ x) = Some (r +:+ x).
Proof.
  revert s. induction q as [|a q IH]; intros s H; simpl in *.
  - by simplify_eq.
  - destruct s as [|b s]; [done|]. rewrite sapp_cons.
    destruct (eq_ci a b); [auto|done].
Qed.

Lemma strip_prefix_ci_has_char c q s r :
  strip_prefix_ci q s = Some r → has_char c s = false → has_char c r = false.
Proof.
  revert s. induction q as [|a q IH]; intros s H Hc; simpl in *.
  - by simplify_eq.
  - destruct s as [|b s]; [done|]. destruct (eq_ci a b); [|done].
    simpl in Hc. apply orb_false_iff in Hc as [_ Hc]. eauto.
Qed.

Lemma skip_spaces_has_char c s :
  has_char c s = false → has_char c (skip_spaces s) = false.
Proof.
  induction s as [|d s IH]; [done|]. rewrite skip_spaces_cons.
  destruct (Ascii.eqb d " "); [|done].
  simpl. intros [_ H]%orb_false_iff. auto.
Qed.

Lemma ser_prefix_app p r x :
  ser_prefix p = Some r → ser_prefix (p +:+ x) = Some (r +:+ x).
Proof.
  unfold ser_prefix. intros H.
  rewrite skip_spaces_app.
  - by apply strip_prefix_ci_app.
  - destruct (all_spaces p) eqn:Hp; [|done].
    by rewrite all_spaces_skip in H.
Qed.

Lemma upto_dollar_line r :
  has_char NLc r = false → upto_dollar (r +:+ NL) = Some r.
Proof.
  induction r as [|c r IH]; [done|]. rewrite sapp_cons.
  change (has_char NLc (String c r)) with (Ascii.eqb NLc c || has_char NLc r).
  intros [Hc Hr]%orb_false_iff.
  change (upto_dollar (String c (r +:+ NL)))
    with (if Ascii.eqb c NLc
          then match r +:+ NL with EmptyString => Some EmptyString | _ => None end
          else option_map (String c) (upto_dollar (r +:+ NL))).
  by rewrite Ascii.eqb_sym, Hc, IH.
Qed.

Lemma has_amp_tail_app r : has_amp_tail (r +:+ " &") = true.
Proof.
  induction r as [|c r IH]; [done|]. rewrite sapp_cons. simpl.
  rewrite IH. apply orb_true_r.
Qed.

(** A directive line that ends with the continuation character is a
    continued line. *)
Lemma re_cont_out_continued p r :
  ser_prefix p = Some r → has_char NLc p = false →
  re_cont_out (p +:+ " &" +:+ NL) = true.
Proof.
  intros Hp Hnl. unfold re_cont_out.
  rewrite (ser_prefix_app _ _ _ Hp).
  replace (r +:+ " &" +:+ NL) with ((r +:+ " &") +:+ NL) by apply sapp_assoc.
  rewrite upto_dollar_line; [apply has_amp_tail_app|].
  rewrite has_char_app. apply orb_false_iff. split; [|done].
  unfold ser_prefix in Hp. eapply strip_prefix_ci_has_char; [exact Hp|].
  by apply skip_spaces_has_char.
Qed.

Section Continuation.
Context (iter : gset string → list string) (cfg : config).

(** The first line of a continued directive is kept, without the
    continuation character. *)
Lemma parse_line_continued generate st p r :
  ser_prefix p = Some r → has_char NLc p = false → rstrip p = p →
  p_line st = EmptyString →
  parse_line iter cfg generate st (p +:+ " &" +:+ NL)
  = Ok (set_line p (set_linenum (p_linenum st + 1) st)).
Proof.
  intros Hp Hnl Hr Hl. unfold parse_line. rewrite Hl. simpl truthy. cbv iota.
  rewrite bind_Ok_l, sapp_nil_l. simpl p_line.
  rewrite (re_cont_out_continued _ _ Hp Hnl), rstrip_chop_amp, Hr.
  destruct st; reflexivity.
Qed.

(** A continuation line with the prefix in lower case is joined to the
    line kept, after one space. *)
Lemma parse_line_continuation generate st r c q :
  ser_prefix (p_line st) = Some r → has_char NLc (p_line st) = false →
  c ≠ " "%char → has_char NLc (String c q) = false → rstrip (String c q) = String c q →
  parse_line iter cfg generate st ("!$ser& " +:+ String c q +:+ " &" +:+ NL)
  = Ok (set_line (p_line st +:+ " " +:+ String c q) (set_linenum (p_linenum st + 1) st)).
Proof.
  intros Hp Hnl Hc Hnl2 Hr. unfold parse_line.
  rewrite (bang_truthy _ (ser_prefix_bang _ _ Hp)).
  change (re_cont_in ("!$ser& " +:+ String c q +:+ " &" +:+ NL)) with true. cbv iota.
  change (sub_cont_in ("!$ser& " +:+ String c q +:+ " &" +:+ NL))
    with (String " " (skip_spaces (String c (q +:+ " &" +:+ NL)))).
  rewrite skip_spaces_cons. destruct (Ascii.eqb_spec c " ") as [|_]; [done|].
  rewrite bind_Ok_l. simpl p_line.
  replace (p_line st +:+ String " " (String c (q +:+ " &" +:+ NL)))
    with ((p_line st +:+ " " +:+ String c q) +:+ " &" +:+ NL).
  2:{ rewrite sapp_assoc. f_equal. }
  erewrite re_cont_out_continued; [|by apply ser_prefix_app|].
  2:{ rewrite has_char_app, Hnl. simpl orb.
      change (" " +:+ String c q) with (String " " (String c q)).
      simpl. simpl in Hnl2. exact Hnl2. }
  rewrite rstrip_chop_amp.
  replace (p_line st +:+ " " +:+ String c q) with ((p_line st +:+ " ") +:+ String c q)
    by apply sapp_assoc.
  rewrite rstrip_app by done.
  destruct st; reflexivity.
Qed.

(** X21: A directive split over three physical lines with the prefix [!$ser&]
    is read as the directive on one line (the parts joined by one space),
    two line numbers later. *)
Lemma continuation_three_lines generate st p1 r c2 q2 p3 rest :
  p_line st = EmptyString →
  ser_prefix p1 = Some r → has_char NLc p1 = false → rstrip p1 = p1 →
  c2 ≠ " "%char → has_char NLc (String c2 q2) = false →
  rstrip (String c2 q2) = String c2 q2 →
  skip_spaces p3 = p3 →
  parse_lines iter cfg generate st
    ((p1 +:+ " &" +:+ NL)
     :: ("!$ser& " +:+ String c2 q2 +:+ " &" +:+ NL)
     :: ("!$ser& " +:+ p3) :: rest)
  = parse_lines iter cfg generate (set_linenum (p_linenum st + 2) st)
      ((p1 +:+ " " +:+ String c2 q2 +:+ " " +:+ p3) :: rest).
Proof.
  intros Hl Hp1 Hnl1 Hr1 Hc2 Hnl2 Hr2 Hp3.
  change (parse_lines iter cfg generate st (?a :: ?b :: ?c :: rest))
    with (parse_line iter cfg generate st a ≫= λ s1,
          parse_line iter cfg generate s1 b ≫= λ s2,
          parse_line iter cfg generate s2 c ≫= λ s3,
          parse_lines iter cfg generate s3 rest).
  erewrite parse_line_continued by done. rewrite bind_Ok_l.
  erewrite parse_line_continuation; [|exact Hp1|done..]. rewrite bind_Ok_l.
  simpl p_line. simpl p_linenum.
  change (parse_lines iter cfg generate ?s (?a :: rest))
    with (parse_line iter cfg generate s a ≫= λ s3,
          parse_lines iter cfg generate s3 rest).
  f_equal. unfold parse_line.
  simpl p_line. rewrite Hl.
  assert (truthy (p1 +:+ " " +:+ String c2 q2) = true) as ->.
  { eapply bang_truthy, bang_app, ser_prefix_bang, Hp1. }
  change (re_cont_in ("!$ser& " +:+ p3)) with true. cbv iota.
  change (sub_cont_in ("!$ser& " +:+ p3)) with (String " " (skip_spaces p3)).
  rewrite Hp3, !bind_Ok_l. simpl truthy. cbv iota. rewrite bind_Ok_l.
  simpl p_line. simpl p_linenum.
  replace ((p1 +:+ " " +:+ String c2 q2) +:+ String " " p3)
    with (EmptyString +:+ p1 +:+ " " +:+ String c2 q2 +:+ " " +:+ p3).
  2:{ rewrite sapp_nil_l, !sapp_assoc. reflexivity. }
  replace (p_linenum st + 1 + 1 + 1) with (p_linenum st + 2 + 1) by lia.
  destruct st; reflexivity.
Qed.

End Continuation.

(** The split of [file_split_lower], read as [file_one_line]. *)
Lemma continuation_three_lines_example :
  parse_lines elements cfg0 true init_state (readlines file_split_lower)
  = parse_lines elements cfg0 true (set_linenum 2 init_state) (readlines file_one_line).
Proof.
  apply (continuation_three_lines elements cfg0 true init_state
           "!$SER VERBATIM a = 1" " VERBATIM a = 1" "+" " 2" ("+ 3" +:+ NL)
           ["b = 2" +:+ NL]); done.
Defined.

(** ** The argument tokenizer *)

Lemma push_truthy t ts :
  Forall (λ a, truthy a = true) ts → Forall (λ a, truthy a = true) (push t ts).
Proof. unfold push. destruct (truthy t) eqn:Ht; [by constructor|done]. Qed.

Lemma tok_truthy s q : Forall (λ a, truthy a = true) (tok s q).2.
Proof.
  revert q. induction s as [|c s IH]; intros q; [by constructor|].
  simpl. destruct q as [d|].
  - specialize (IH (if Ascii.eqb c d then None else Some d)).
    by destruct (tok s _).
  - destruct (is_quote_c c && has_char c s).
    + specialize (IH (Some c)). by destruct (tok s _).
    + specialize (IH None).
      destruct (is_quote_c c || Ascii.eqb c " "); destruct (tok s None); simpl in *;
        [by apply push_truthy|done].
Qed.

(** X1: No token is empty, whatever the text: an argument of a directive is
    never the empty string. *)
Theorem tokenize_truthy s : Forall (λ a, truthy a = true) (tokenize s).
Proof.
  unfold tokenize. pose proof (tok_truthy s None) as H.
  destruct (tok s None). by apply push_truthy.
Qed.

Lemma tok_space r :
  tok (String " " r) None = (EmptyString, tokenize r).
Proof. unfold tokenize. simpl. by destruct (tok r None). Qed.

Lemma tok_clean_word w r :
  sall (λ c, negb (is_quote_c c || Ascii.eqb c " ")) w = true →
  tok (w +:+ r) None = ((w +:+ (tok r None).1), (tok r None).2).
Proof.
  induction w as [|c w IH]; [rewrite !sapp_nil_l; by destruct (tok r None)|].
  simpl sall. intros [Hc Hw]%andb_true_iff.
  apply negb_true_iff, orb_false_iff in Hc as [Hq Hs].
  rewrite sapp_cons. simpl tok. rewrite Hq, Hs. simpl. by rewrite IH.
Qed.

Lemma tok_join ws :
  Forall (λ w, clean_word w = true) ws → tokenize (join " " ws) = ws.
Proof.
  induction 1 as [|w ws Hw Hws IH]; [done|].
  apply andb_true_iff in Hw as [Ht Hc].
  destruct ws as [|w' ws].
  - unfold tokenize. simpl join.
    rewrite <- (sapp_nil_r w), tok_clean_word by done.
    simpl. rewrite sapp_nil_r. unfold push. by rewrite Ht.
  - change (join " " (w :: w' :: ws)) with (w +:+ " " +:+ join " " (w' :: ws)).
    unfold tokenize. rewrite tok_clean_word by done.
    change (" " +:+ join " " (w' :: ws)) with (String " " (join " " (w' :: ws))).
    rewrite tok_space, IH. simpl. rewrite sapp_nil_r. unfold push. by rewrite Ht.
Qed.

(** X2: Words without space and quote, joined by single spaces, are the tokens
    of the text they make. *)
Theorem tokenize_join ws :
  Forall (λ w, clean_word w = true) ws → tokenize (join " " ws) = ws.
Proof. apply tok_join. Qed.

Lemma tokenize_join_witness :
  tokenize (join " " ["DATA"; "u=u(:,:,:,nnow)"; "IF"; "ntstep>0"])
  = ["DATA"; "u=u(:,:,:,nnow)"; "IF"; "ntstep>0"].
Proof.
  apply tokenize_join. apply (bool_decide_unpack _). vm_compute. exact I.
Defined.

(** ** The general argument parser *)

Section ArgParseMore.
Context (cfg : config).

Lemma arg_loop_lengths st kw l dirs keys values enc c dirs' keys' values' c' :
  arg_loop cfg st kw l dirs keys values enc c = Ok (dirs', keys', values', c') →
  length keys = length values →
  length keys' = length values' ∧
  length dirs' + length keys' ≤ length dirs + length keys + length l.
Proof.
  revert dirs keys values enc c.
  induction l as [|a l IH]; intros dirs keys values enc c H Hlen; simpl in H.
  - apply Ok_inj in H. simplify_eq. simpl. lia.
  - destruct (String.eqb (upper a) "IF").
    { apply IH in H as [? ?]; [|done]. simpl. lia. }
    destruct enc.
    { destruct (truthy c); [done|]. apply IH in H as [? ?]; [|done]. simpl. lia. }
    destruct (split_char "=" a) as [|v0 [|v1 [|v2 vs]]]; [done| | |done].
    + apply IH in H as [? ?]; [|done]. rewrite length_app in *. simpl in *. lia.
    + apply IH in H as [? ?]; [|by rewrite !length_app; simpl; lia].
      rewrite !length_app in *. simpl in *. lia.
Qed.

(** X3: The keys and the values the parser returns pair up (the handlers read
    [values[i]] for every index of [keys]), and no argument is counted
    twice. *)
Theorem ser_arg_parse_pairs st args dirs keys values c :
  ser_arg_parse cfg st args = Ok (dirs, keys, values, c) →
  length keys = length values ∧ length dirs + length keys ≤ length args - 1.
Proof.
  unfold ser_arg_parse. intros H. apply arg_loop_lengths in H as [H1 H2]; [|done].
  split; [done|]. rewrite length_drop in H2. simpl in H2. lia.
Qed.

Lemma split_char_no_sep sep s : has_char sep s = false → split_char sep s = [s].
Proof.
  induction s as [|c s IH]; [done|]. simpl.
  intros [Hc Hs]%orb_false_iff. rewrite Ascii.eqb_sym, Hc, IH; done.
Qed.

(** Bare arguments are returned as the directives, in their order. *)
Lemma arg_loop_bare st kw l dirs keys values :
  Forall (λ a, bare_arg a = true) l →
  arg_loop cfg st kw l dirs keys values false EmptyString
  = Ok (dirs ++ l, keys, values, EmptyString).
Proof.
  intros Hl. revert dirs. induction Hl as [|a l Ha Hl IH]; intros dirs; simpl.
  - by rewrite app_nil_r.
  - apply andb_true_iff in Ha as [Hif Heq]. apply negb_true_iff in Hif, Heq.
    fold (is_if a). rewrite Hif, split_char_no_sep by done.
    rewrite IH. by rewrite <- app_assoc.
Qed.

Lemma ser_arg_parse_bare st kw l :
  Forall (λ a, bare_arg a = true) l →
  ser_arg_parse cfg st (kw :: l) = Ok (l, [], [], EmptyString).
Proof. intros Hl. unfold ser_arg_parse. simpl drop. by rewrite arg_loop_bare. Qed.

End ArgParseMore.

Lemma ser_arg_parse_pairs_witness :
  ∃ dirs keys values c,
    ser_arg_parse cfg0 init_state ["SAVEPOINT"; "sp"; "a=1"; "b=x"; "IF"; "t>0"]
      = Ok (dirs, keys, values, c) ∧
    (length keys = length values ∧ length dirs + length keys ≤ 6 - 1).
Proof.
  eexists _, _, _, _. split; [vm_compute; reflexivity|].
  eapply (ser_arg_parse_pairs cfg0 init_state
            ["SAVEPOINT"; "sp"; "a=1"; "b=x"; "IF"; "t>0"]).
  vm_compute. reflexivity.
Defined.

(** ** The shortcuts of REGISTER *)

Lemma reg_shortcuts_cases s :
  reg_shortcuts s = [] ∨
  (length (reg_shortcuts s) = 12 ∧ Forall (λ a, bare_arg a = true) (reg_shortcuts s)).
Proof.
  unfold reg_shortcuts. destruct (re_shortcut_match (upper s)); [|by left].
  repeat match goal with
  | |- context [if String.eqb ?a ?b then _ else _] => destruct (String.eqb a b)
  end;
  first [by left | right; split; [reflexivity|apply (bool_decide_unpack _); vm_compute; exact I]].
Qed.

(** X4: A shortcut stands for nothing or for twelve bare arguments (the sizes
    and the halos of a field). *)
Theorem reg_shortcuts_twelve s :
  reg_shortcuts s = [] ∨
  (length (reg_shortcuts s) = 12 ∧ Forall (λ a, bare_arg a = true) (reg_shortcuts s)).
Proof. apply reg_shortcuts_cases. Qed.

Lemma datatypes_pair type constants :
  datatypes !! type = Some constants → length constants = 2.
Proof.
  intros H%elem_of_map_to_list.
  remember (map_to_list datatypes) as l eqn:Hl. vm_compute in Hl. subst l.
  repeat match goal with
  | H : _ ∈ _ :: _ |- _ => apply elem_of_cons in H as [H|H]
  | H : _ ∈ [] |- _ => by apply elem_of_nil in H
  end; by simplify_eq.
Qed.

(** X5: [REGISTER name type shortcut], with a shortcut of the table, is
    [REGISTER name type] followed by the twelve arguments the shortcut
    stands for. *)
Theorem register_shortcut_expands cfg st kw name type shortcut :
  bare_arg name = true → bare_arg type = true → bare_arg shortcut = true →
  is_Some (datatypes !! type) →
  reg_shortcuts shortcut ≠ [] →
  ser_register cfg st [kw; name; type; shortcut]
  = ser_register cfg st (kw :: name :: type :: reg_shortcuts shortcut).
Proof.
  intros Hn Ht Hs [constants Hc] Hne.
  destruct (reg_shortcuts_cases shortcut) as [|[Hlen Hbare]]; [done|].
  unfold ser_register.
  rewrite !ser_arg_parse_bare, !bind_Ok_l by (repeat constructor; done).
  pose proof (datatypes_pair _ _ Hc) as Hlc.
  destruct constants as [|c1 [|c2 [|c3 cs]]]; try done.
  destruct (reg_shortcuts shortcut) as [|s1 l] eqn:Hl; [done|].
  simpl in Hlen.
  do 11 (destruct l as [|? l]; [done|]). destruct l; [|done].
  simpl. rewrite Hc. simpl. rewrite Hl. reflexivity.
Qed.

Lemma register_shortcut_expands_witness :
  ser_register cfg0 init_state ["REG"; "u"; "real"; "ijk"]
  = ser_register cfg0 init_state ("REG" :: "u" :: "real" :: reg_shortcuts "ijk").
Proof.
  apply register_shortcut_expands; try reflexivity.
  - vm_compute. eauto.
  - vm_compute. discriminate.
Defined.

(** ** ZERO *)

(** X6: ZERO writes one assignment per field, in the order of the fields, and
    refers to no symbol of the serialization modules. *)
Theorem ser_zero_fields cfg st kw fields :
  Forall (λ a, bare_arg a = true) fields →
  ser_zero cfg st (kw :: fields)
  = Ok (set_line (sconcat (map (λ f, f +:+ " = 0.0_" +:+ real cfg +:+ NL) fields)) st).
Proof.
  intros Hf. unfold ser_zero. rewrite ser_arg_parse_bare, bind_Ok_l by done.
  simpl. by rewrite sapp_nil_r.
Qed.

Lemma ser_zero_fields_witness :
  ser_zero cfg0 init_state ["ZERO"; "a"; "b"; "c"]
  = Ok (set_line (text ["a = 0.0_wp"; "b = 0.0_wp"; "c = 0.0_wp"]) init_state).
Proof.
  rewrite ser_zero_fields by (repeat constructor). reflexivity.
Defined.

(** ** The keywords *)

(** No spelling selects two directives. *)
Lemma language_disjoint :
  Forall (λ k, Forall (λ k', k = k' ∨
      Forall (λ x, x ∉ (language !!! k' : list string)) (language !!! k : list string))
    dispatch_keys) dispatch_keys.
Proof. apply (bool_decide_unpack _). vm_compute. exact I. Qed.

Lemma is_kw_exclusive a k k' :
  k ∈ dispatch_keys → k' ∈ dispatch_keys →
  is_kw k a = true → is_kw k' a = true → k = k'.
Proof.
  intros Hk Hk' H1%bool_decide_eq_true H2%bool_decide_eq_true.
  pose proof language_disjoint as Hd.
  rewrite Forall_forall in Hd. specialize (Hd k Hk).
  rewrite Forall_forall in Hd. destruct (Hd k' Hk') as [|Hx]; [done|].
  rewrite Forall_forall in Hx. by destruct (Hx _ H1).
Qed.

(** The keyword of one directive is the keyword of no other. *)
Lemma is_kw_other a k k' :
  k ∈ dispatch_keys → k' ∈ dispatch_keys → k ≠ k' →
  is_kw k a = true → is_kw k' a = false.
Proof.
  intros Hk Hk' Hne H. destruct (is_kw k' a) eqn:H'; [|done].
  destruct Hne. by eapply is_kw_exclusive.
Qed.

Ltac in_dispatch_keys := apply (bool_decide_unpack _); vm_compute; exact I.

(** ** Lines that no handler takes *)

Section Edges.
Context (cfg : config).

(** X7: A directive line whose text holds no token (a quote that is not
    closed), and a MODE directive without argument, are not reported: the
    code reads an index that is not there. A keyword that is in no list is
    reported with the keyword. *)
Theorem directive_line_edges st g :
  re_ser_match (p_line st) = Some g → truthy g = true →
  (tokenize g = [] → re_ser cfg st = Raise IndexError) ∧
  (∀ a0, tokenize g = [a0] → is_kw "mode" a0 = true →
         re_ser cfg st = Raise IndexError) ∧
  (∀ a0 rest, tokenize g = a0 :: rest →
     Forall (λ k, is_kw k a0 = false) dispatch_keys →
     re_ser cfg st = Exit (Report (infile cfg) (p_linenum st) a0
                             "Unknown directive encountered" (p_line st))).
Proof.
  intros Hm Hg. unfold re_ser. rewrite Hm, Hg. split_and!.
  - by intros ->.
  - intros a0 -> Ha.
    rewrite !(is_kw_other a0 "mode") by (done || in_dispatch_keys).
    rewrite Ha. reflexivity.
  - intros a0 rest -> Hall. unfold dispatch_keys in Hall.
    repeat match goal with
    | H : Forall _ (_ :: _) |- _ => apply Forall_cons in H as [-> H]
    end.
    reflexivity.
Qed.

End Edges.

Lemma directive_line_edges_witness :
  re_ser cfg0 (set_line ("!$SER " +:+ DQ +:+ NL) init_state) = Raise IndexError ∧
  re_ser cfg0 (set_line ("!$SER Mode" +:+ NL) init_state) = Raise IndexError ∧
  re_ser cfg0 (set_line ("!$SER FOO x" +:+ NL) init_state)
  = Exit (Report "t.f90" 0 "FOO" "Unknown directive encountered" ("!$SER FOO x" +:+ NL)).
Proof.
  destruct (directive_line_edges cfg0 (set_line ("!$SER " +:+ DQ +:+ NL) init_state) DQ)
    as (H1 & _ & _); [reflexivity..|].
  destruct (directive_line_edges cfg0 (set_line ("!$SER Mode" +:+ NL) init_state) "Mode")
    as (_ & H2 & _); [reflexivity..|].
  destruct (directive_line_edges cfg0 (set_line ("!$SER FOO x" +:+ NL) init_state) "FOO x")
    as (_ & _ & H3); [reflexivity..|].
  split_and!.
  - by apply H1.
  - apply (H2 "Mode"); [reflexivity|]. vm_compute. reflexivity.
  - apply (H3 "FOO" ["x"]); [reflexivity|]. in_dispatch_keys.
Defined.

(** ** VERBATIM *)

Lemma join_cons sep x l :
  join sep (x :: l) = x +:+ match l with [] => EmptyString | _ => sep +:+ join sep l end.
Proof. destruct l; [by rewrite sapp_nil_r|done]. Qed.

Lemma has_char_join c sep l :
  has_char c sep = false → Forall (λ w, has_char c w = false) l →
  has_char c (join sep l) = false.
Proof.
  intros Hsep. induction 1 as [|w l Hw Hl IH]; [done|].
  rewrite join_cons, has_char_app, Hw. simpl.
  destruct l; [done|]. by rewrite has_char_app, Hsep, IH.
Qed.

Lemma clean_word_skip_spaces w r :
  clean_word w = true → skip_spaces (w +:+ r) = w +:+ r.
Proof.
  destruct w as [|c w]; [done|]. unfold clean_word. intros H. simpl in H.
  apply andb_true_iff in H as [Hc _].
  apply negb_true_iff, orb_false_iff in Hc as [_ Hc].
  by rewrite sapp_cons, skip_spaces_cons, Hc.
Qed.

Lemma truthy_app w r : truthy w = true → truthy (w +:+ r) = true.
Proof. by destruct w. Qed.

(** X8: The text after VERBATIM comes out as it is written, when its words are
    separated by single spaces: the directive is taken off and the line goes
    through the tokenizer and back. *)
Theorem verbatim_round_trip cfg st kw ws :
  is_kw "verbatim" kw = true →
  Forall (λ w, clean_word w = true) (kw :: ws) →
  Forall (λ w, has_char NLc w = false) (kw :: ws) →
  p_line st = "!$SER " +:+ join " " (kw :: ws) +:+ NL →
  re_ser cfg st = Ok (set_line (join " " ws +:+ NL) st, true).
Proof.
  intros Hkw Hclean Hnl Hl.
  assert (re_ser_match (p_line st) = Some (join " " (kw :: ws))) as Hm.
  { rewrite Hl. unfold re_ser_match.
    change (ser_prefix ("!$SER " +:+ join " " (kw :: ws) +:+ NL))
      with (Some (String " " (join " " (kw :: ws) +:+ NL))).
    cbv beta iota. rewrite skip_spaces_cons. simpl Ascii.eqb. cbv iota.
    rewrite join_cons, sapp_assoc, clean_word_skip_spaces by by inversion Hclean.
    rewrite <- sapp_assoc, <- join_cons.
    apply upto_dollar_line, has_char_join; done. }
  unfold re_ser. rewrite Hm.
  assert (truthy (join " " (kw :: ws)) = true) as ->.
  { rewrite join_cons. apply truthy_app. apply Forall_cons in Hclean as [Hc _].
    by apply andb_true_iff in Hc as [? _]. }
  rewrite tok_join by done.
  rewrite !(is_kw_other kw "verbatim") by (done || in_dispatch_keys).
  rewrite Hkw. reflexivity.
Qed.

Lemma verbatim_round_trip_witness :
  re_ser cfg0 (set_line ("!$SER " +:+ join " " ["Ver"; "x"; "="; "y(1)"] +:+ NL) init_state)
  = Ok (set_line ("x = y(1)" +:+ NL)
          (set_line ("!$SER " +:+ join " " ["Ver"; "x"; "="; "y(1)"] +:+ NL) init_state),
        true).
Proof.
  apply (verbatim_round_trip cfg0 _ "Ver" ["x"; "="; "y(1)"]);
    [vm_compute; reflexivity| | |reflexivity];
    apply (bool_decide_unpack _); vm_compute; exact I.
Defined.

(** ** The units of the program *)

Lemma strip_prefix_ci_first a p c s r :
  strip_prefix_ci (String a p) (String c s) = Some r → eq_ci a c = true.
Proof. simpl. by destruct (eq_ci a c). Qed.

(** A line that ends a unit opens none and is no IMPLICIT NONE. *)
Lemma re_endmodule_not_module l g :
  re_endmodule_match l = Some g →
  re_module_match l = None ∧ re_implicit_match l = false.
Proof.
  unfold re_endmodule_match, re_module_match, re_implicit_match, unit_kw.
  destruct (skip_spaces l) as [|c s]; [done|].
  destruct (strip_prefix_ci "end" (String c s)) as [r|] eqn:He; [|done].
  apply strip_prefix_ci_first in He. intros _.
  assert (eq_ci "m" c = false) as Hm by by eapply eq_ci_trans_false.
  assert (eq_ci "p" c = false) as Hp by by eapply eq_ci_trans_false.
  assert (eq_ci "i" c = false) as Hi by by eapply eq_ci_trans_false.
  simpl. by rewrite Hm, Hp, Hi.
Qed.

Section Units.
Context (iter : gset string → list string) (cfg : config).

(** X9: A MODULE or PROGRAM statement inside a unit, and an END statement that
    does not name the unit that is open, stop the lexer at once with a
    report: units do not nest and must be closed by name. *)
Theorem unit_mismatch_rejected final st g1 g2 :
  (re_module_match (p_line st) = Some (g1, g2) →
   upper g2 ≠ "PROCEDURE" → truthy (p_module st) = true →
   lexer iter cfg final st
   = Exit (Report (infile cfg) (p_linenum st) EmptyString
             ("Unexpected " +:+ g1 +:+ " statement") (p_line st))) ∧
  (re_endmodule_match (p_line st) = Some (g1, g2) → p_module st ≠ g2 →
   lexer iter cfg final st
   = Exit (Report (infile cfg) (p_linenum st) EmptyString
             (if truthy (p_module st)
              then "Was expecting " +:+ DQ +:+ "end " +:+ g1 +:+ " " +:+ p_module st +:+ DQ
              else "Unexpected " +:+ DQ +:+ "end " +:+ g1 +:+ DQ +:+ " statement")
             (p_line st))).
Proof.
  split.
  - intros Hm Hp Ho. unfold lexer, re_module. rewrite Hm, Ho.
    apply String.eqb_neq in Hp. by rewrite Hp.
  - intros He Hne. destruct (re_endmodule_not_module _ _ He) as [Hm Hi].
    unfold lexer. unfold re_module at 1. rewrite Hm, bind_Ok_l.
    rewrite re_implicit_nomatch by done.
    unfold re_endmodule. rewrite He.
    destruct (truthy (p_module st)); [|done]. simpl negb. cbv iota.
    apply String.eqb_neq in Hne. by rewrite Hne.
Qed.

(** A unit opened and closed by its name leaves no unit open. *)
Lemma unit_open_close st st' l1 l2 g1 g1' name :
  re_module_match l1 = Some (g1, name) → upper name ≠ "PROCEDURE" →
  re_endmodule_match l2 = Some (g1', name) →
  p_module st = EmptyString →
  re_module cfg (set_line l1 st) = Ok st' →
  p_module st' = name ∧
  re_endmodule cfg (set_line l2 st') = Ok (set_module EmptyString (set_line l2 st')).
Proof.
  intros Hm Hp He Ho. unfold re_module, re_endmodule. simpl p_line. simpl p_module.
  rewrite Hm, Ho. apply String.eqb_neq in Hp. rewrite Hp. simpl.
  intros <-%Ok_inj. simpl. rewrite He.
  assert (truthy name = true) as ->.
  { unfold re_module_match in Hm. repeat case_match; simplify_eq.
    unfold ident in *. repeat case_match; by simplify_eq. }
  by rewrite String.eqb_refl.
Qed.

End Units.

Lemma unit_mismatch_rejected_witness :
  lexer elements cfg0 false (set_module "a" (set_line ("end module b" +:+ NL) init_state))
  = Exit (Report "t.f90" 0 EmptyString
            ("Was expecting " +:+ DQ +:+ "end module a" +:+ DQ) ("end module b" +:+ NL)) ∧
  lexer elements cfg0 false (set_module "a" (set_line ("program b" +:+ NL) init_state))
  = Exit (Report "t.f90" 0 EmptyString "Unexpected program statement" ("program b" +:+ NL)).
Proof.
  split.
  - apply (unit_mismatch_rejected elements cfg0 false
             (set_module "a" (set_line ("end module b" +:+ NL) init_state)) "module" "b");
      [reflexivity|discriminate].
  - apply (unit_mismatch_rejected elements cfg0 false
             (set_module "a" (set_line ("program b" +:+ NL) init_state)) "program" "b");
      [reflexivity|discriminate|reflexivity].
Defined.

(** ** Line numbers, output and reports *)

Lemma bind_Exit {A B} (m : result A) (f : A → result B) r :
  m ≫= f = Exit r ↔ m = Exit r ∨ ∃ a, m = Ok a ∧ f a = Exit r.
Proof.
  destruct m as [a|r'|e].
  - rewrite bind_Ok_l. split; [intros H; right; eauto|].
    intros [H|(a' & Ha & Hf)]; [done|congruence].
  - change (Exit r' ≫= f) with (@Exit B r'). split; [intros H; left; congruence|].
    intros [H|(a' & Ha & _)]; [congruence|discriminate].
  - change (Raise e ≫= f) with (@Raise B e). split; [discriminate|].
    intros [H|(a' & Ha & _)]; discriminate.
Qed.

(** Runs a handler that exits: every test it makes is split, and the
    branches that return are closed. *)
Ltac run_exit H :=
  repeat match type of H with
  | Ok _ = Exit _ => discriminate H
  | Raise _ = Exit _ => discriminate H
  | exit_error _ _ _ _ = Exit _ => apply (f_equal (λ x, match x with Exit r => Some r | _ => None end)) in H; simpl in H; injection H as <-; split; reflexivity
  | _ ≫= _ = Exit _ =>
      let a := fresh "x" in let Ha := fresh "Hx" in
      apply bind_Exit in H as [H|(a & Ha & H)]
  | (let '(_, _) := ?p in _) = Exit _ => destruct p
  | (if ?b then _ else _) = Exit _ => destruct b
  | match ?x with _ => _ end = Exit _ => destruct x
  end.

Section Reports.
Context (iter : gset string → list string) (cfg : config).

Lemma arg_loop_reported st kw l dirs keys values enc c r :
  arg_loop cfg st kw l dirs keys values enc c = Exit r → reported cfg st r.
Proof.
  revert dirs keys values enc c. induction l as [|a l IH]; intros dirs keys values enc c H;
    simpl in H; [done|].
  destruct (String.eqb (upper a) "IF"); [eauto|].
  destruct enc.
  - destruct (truthy c); [|eauto]. run_exit H.
  - destruct (split_char "=" a) as [|v0 [|v1 [|v2 vs]]]; eauto; run_exit H.
Qed.

Lemma ser_arg_parse_reported st args r :
  ser_arg_parse cfg st args = Exit r → reported cfg st r.
Proof. apply arg_loop_reported. Qed.

Lemma tracer_loop_reported st kw l specs enc c r :
  tracer_loop cfg st kw l specs enc c = Exit r → reported cfg st r.
Proof.
  revert specs enc c. induction l as [|a l IH]; intros specs enc c H; simpl in H; [done|].
  destruct (String.eqb (upper a) "IF"); [eauto|].
  destruct enc.
  - destruct (truthy c); [|eauto]. run_exit H.
  - destruct (re_tracer_match a); [eauto|]. run_exit H.
Qed.

(** Every handler that exits reports the file and the line number. *)
Lemma re_ser_reported st r : re_ser cfg st = Exit r → reported cfg st r.
Proof.
  unfold re_ser. intros H.
  destruct (re_ser_match (p_line st)) as [g1|]; [|done].
  destruct (truthy g1); [|done].
  destruct (tokenize g1) as [|a0 args]; [done|].
  apply bind_Exit in H as [H|(a & _ & H)]; [|done].
  repeat match type of H with
  | (if ?b then _ else _) = Exit _ => destruct b
  end.
  - unfold ser_init in H. apply bind_Exit in H as [H|(a & _ & H)];
      [by apply ser_arg_parse_reported in H|]. by destruct a as [[[? ?] ?] ?].
  - unfold ser_option in H. apply bind_Exit in H as [H|(a & _ & H)];
      [by apply ser_arg_parse_reported in H|]. destruct a as [[[? ?] ?] ?]. run_exit H.
  - unfold ser_metainfo in H. apply bind_Exit in H as [H|(a & _ & H)];
      [by apply ser_arg_parse_reported in H|]. by destruct a as [[[? ?] ?] ?].
  - done.
  - unfold ser_register in H. apply bind_Exit in H as [H|(a & _ & H)];
      [by apply ser_arg_parse_reported in H|]. destruct a as [[[? ?] ?] ?]. run_exit H.
  - unfold ser_savepoint in H. apply bind_Exit in H as [H|(a & _ & H)];
      [by apply ser_arg_parse_reported in H|]. destruct a as [[[? ?] ?] ?]. run_exit H.
  - unfold ser_zero in H. apply bind_Exit in H as [H|(a & _ & H)];
      [by apply ser_arg_parse_reported in H|]. destruct a as [[[? ?] ?] ?]. run_exit H.
  - unfold ser_data in H. apply bind_Exit in H as [H|(a & _ & H)];
      [by apply ser_arg_parse_reported in H|]. destruct a as [[[? ?] ?] ?]. run_exit H.
  - unfold ser_tracer, ser_tracer_parse in H. apply bind_Exit in H as [H|(a & _ & H)];
      [by apply tracer_loop_reported in H|]. by destruct a.
  - done.
  - done.
  - done.
  - done.
  - unfold ser_mode in H. apply bind_Exit in H as [H|(a & _ & H)];
      [by apply ser_arg_parse_reported in H|]. destruct a as [[[? ?] ?] ?]. run_exit H.
  - run_exit H.
Qed.


Lemma re_implicit_linenum st : p_linenum (re_implicit iter cfg st) = p_linenum st.
Proof. unfold re_implicit. repeat case_match; done. Qed.

Lemma re_def_linenum st st' : re_def cfg st = Ok st' → p_linenum st' = p_linenum st.
Proof.
  unfold re_def. intros H.
  repeat match type of H with
  | (if ?b then _ else _) = Ok _ => destruct b
  | match ?x with _ => _ end = Ok _ => destruct x
  end; try discriminate; apply Ok_inj in H; by subst st'.
Qed.

Lemma re_def_not_exit st r : re_def cfg st ≠ Exit r.
Proof.
  unfold re_def.
  repeat match goal with
  | |- (if ?b then _ else _) ≠ _ => destruct b
  | |- match ?x with _ => _ end ≠ _ => destruct x
  end; discriminate.
Qed.

Lemma guard_linenum m st : p_linenum (guard cfg m st) = p_linenum st.
Proof. unfold guard. repeat case_match; done. Qed.

(** The lexer changes neither the line number nor the output. *)
Lemma lexer_linenum final st st' :
  lexer iter cfg final st = Ok st' →
  p_linenum st' = p_linenum st ∧ p_outputBuffer st' = p_outputBuffer st.
Proof.
  intros (st1 & st2 & st3 & st4 & m & H1 & H2 & H3 & H4 & H5)%lexer_Ok.
  assert (p_linenum st1 = p_linenum st ∧ p_outputBuffer st1 = p_outputBuffer st)
    as [Hn1 Ho1] by by destruct (re_module_same _ _ _ H1) as [->| ->].
  assert (p_linenum st2 = p_linenum st1 ∧ p_outputBuffer st2 = p_outputBuffer st1)
    as [Hn2 Ho2].
  { destruct (re_endmodule_same _ _ _ H2) as [->| ->]; simpl;
      by rewrite re_implicit_linenum, re_implicit_outputBuffer. }
  pose proof (re_def_linenum _ _ H3) as Hn3.
  apply re_def_lists in H3 as (_ & _ & _ & _ & _ & Ho3 & _).
  apply re_ser_frame in H4. destruct H4 as [_ _ _ _ Hn4 _ Ho4 _ _].
  assert (st' = guard cfg m st4) as ->.
  { destruct final; [by apply final_check_same in H5|by apply Ok_inj in H5]. }
  rewrite guard_linenum. destruct (guard_same cfg m st4) as (_ & _ & _ & _ & _ & ->).
  split; congruence.
Qed.

(** A lexer that exits reports the file and the number of its line. *)
Lemma lexer_reported final st r :
  lexer iter cfg final st = Exit r → reported cfg st r.
Proof.
  unfold lexer. intros H.
  apply bind_Exit in H as [H|(st1 & H1 & H)].
  { unfold re_module in H. run_exit H. }
  assert (p_linenum st1 = p_linenum st) as Hn1
    by by destruct (re_module_same _ _ _ H1) as [->| ->].
  apply bind_Exit in H as [H|(st2 & H2 & H)].
  { unfold re_endmodule in H. unfold reported. rewrite <- Hn1.
    rewrite <- (re_implicit_linenum st1). run_exit H. }
  assert (p_linenum st2 = p_linenum st1) as Hn2.
  { destruct (re_endmodule_same _ _ _ H2) as [->| ->]; simpl;
      by rewrite re_implicit_linenum. }
  apply bind_Exit in H as [H|(st3 & H3 & H)]; [by apply re_def_not_exit in H|].
  pose proof (re_def_linenum _ _ H3) as Hn3.
  apply bind_Exit in H as [H|([st4 m] & H4 & H)].
  { apply re_ser_reported in H as [? ?]. split; congruence. }
  apply re_ser_frame in H4. destruct H4 as [_ _ _ _ Hn4 _ _ _ _].
  destruct final; [|done].
  assert (reported cfg (guard cfg m st4) r) as [? Hr].
  { unfold final_check in H. run_exit H. }
  rewrite guard_linenum in Hr. split; congruence.
Qed.

Lemma parse_line_linenum generate st line st' :
  parse_line iter cfg generate st line = Ok st' →
  p_linenum st' = p_linenum st + 1 ∧
  (generate = false → p_outputBuffer st' = p_outputBuffer st).
Proof.
  unfold parse_line. intros H. bind_inv H.
  match type of H with (if ?b then _ else _) = _ => destruct b end.
  - apply Ok_inj in H. by subst st'.
  - bind_inv H. apply Ok_inj in H. subst st'.
    apply lexer_linenum in Hx0 as [Hn Ho]. simpl in Hn, Ho.
    split; [by destruct generate|]. by intros ->.
Qed.

Lemma parse_line_reported generate st line r :
  parse_line iter cfg generate st line = Exit r →
  r_file r = infile cfg ∧ p_linenum st ≤ r_linenum r ≤ p_linenum st + 1.
Proof.
  unfold parse_line. intros H.
  apply bind_Exit in H as [H|(l & _ & H)].
  { assert (reported cfg st r) as [? ?] by run_exit H. split; [done|lia]. }
  match type of H with (if ?b then _ else _) = _ => destruct b end; [done|].
  apply bind_Exit in H as [H|(st2 & _ & H)]; [|done].
  apply lexer_reported in H as [? Hn]. simpl in Hn. split; [done|lia].
Qed.

Lemma parse_lines_linenum generate lines st st' :
  parse_lines iter cfg generate st lines = Ok st' →
  p_linenum st' = p_linenum st + length lines ∧
  (generate = false → p_outputBuffer st' = p_outputBuffer st).
Proof.
  revert st. induction lines as [|line lines IH]; intros st H; simpl in H.
  - apply Ok_inj in H. subst. simpl. split; [lia|done].
  - bind_inv H. apply parse_line_linenum in Hx as [Hn Ho].
    apply IH in H as [Hn' Ho']. simpl. split; [lia|].
    intros Hg. by rewrite Ho', Ho.
Qed.

Lemma parse_lines_reported generate lines st r :
  parse_lines iter cfg generate st lines = Exit r →
  r_file r = infile cfg ∧ p_linenum st ≤ r_linenum r ≤ p_linenum st + length lines.
Proof.
  revert st. induction lines as [|line lines IH]; intros st H; simpl in H; [done|].
  apply bind_Exit in H as [H|(st1 & H1 & H)].
  - apply parse_line_reported in H as [? ?]. simpl. split; [done|lia].
  - apply parse_line_linenum in H1 as [Hn _]. apply IH in H as [? ?].
    simpl. split; [done|lia].
Qed.

(** X11: When a pass ends well, the line number is the number of physical lines
    of the file: continuation lines are counted. *)
Theorem parse_counts_lines generate lines st st' :
  parse iter cfg generate lines st = Ok st' → p_linenum st' = length lines.
Proof.
  unfold parse. intros H. bind_inv H. bind_inv H.
  apply check_removed_same in H. subst st'.
  apply parse_lines_linenum in Hx as [Hn _]. apply lexer_linenum in Hx0 as [Hn' _].
  simpl in Hn. lia.
Qed.

(** X12: The analysis pass writes nothing: its output buffer is empty. *)
Theorem analysis_pass_writes_nothing lines st st' :
  parse iter cfg false lines st = Ok st' → p_outputBuffer st' = EmptyString.
Proof.
  unfold parse. intros H. bind_inv H. bind_inv H.
  apply check_removed_same in H. subst st'.
  apply parse_lines_linenum in Hx as [_ Ho]. apply lexer_linenum in Hx0 as [_ Ho'].
  rewrite Ho', Ho; done.
Qed.

(** X13: Every report of a fatal error names the input file, and its line
    number is at most the number of physical lines of the file. *)
Theorem reports_name_file_and_line generate lines st r :
  parse iter cfg generate lines st = Exit r →
  r_file r = infile cfg ∧ r_linenum r ≤ length lines.
Proof.
  unfold parse. intros H.
  apply bind_Exit in H as [H|(st1 & H1 & H)].
  { apply parse_lines_reported in H as [? Hn]. simpl in Hn. split; [done|lia]. }
  apply parse_lines_linenum in H1 as [Hn1 _]. simpl in Hn1.
  apply bind_Exit in H as [H|(st2 & H2 & H)].
  { apply lexer_reported in H as [? ?]. split; [done|lia]. }
  apply lexer_linenum in H2 as [Hn2 _].
  assert (reported cfg st2 r) as [? ?].
  { unfold check_removed in H. run_exit H. }
  split; [done|lia].
Qed.

End Reports.

Lemma parse_counts_lines_witness :
  ∃ st', parse elements cfg0 true (readlines file_split_lower) init_state = Ok st' ∧
         p_linenum st' = 4.
Proof.
  eexists. split; [vm_compute; reflexivity|].
  apply (parse_counts_lines elements cfg0 true (readlines file_split_lower) init_state).
  vm_compute. reflexivity.
Defined.

Lemma analysis_pass_writes_nothing_witness :
  ∃ st', parse elements cfg0 false (readlines file_on) init_state = Ok st' ∧
         p_outputBuffer st' = EmptyString.
Proof.
  eexists. split; [vm_compute; reflexivity|].
  apply (analysis_pass_writes_nothing elements cfg0 (readlines file_on) init_state).
  vm_compute. reflexivity.
Defined.

Lemma reports_name_file_and_line_witness :
  ∃ r, parse elements cfg0 true (readlines file_removal) init_state = Exit r ∧
       (r_file r = "t.f90" ∧ r_linenum r ≤ 5).
Proof.
  eexists. split; [vm_compute; reflexivity|].
  apply (reports_name_file_and_line elements cfg0 true (readlines file_removal) init_state).
  vm_compute. reflexivity.
Defined.

(** ** Continuation lines that go wrong *)

Section ContinuationErrors.
Context (iter : gset string → list string) (cfg : config).

(** X14: After a continued directive line, a line without the continuation
    prefix is fatal; the report carries the number and the text of the
    continued line, the last one read before. *)
Theorem continuation_broken generate st p r bad rest :
  p_line st = EmptyString →
  ser_prefix p = Some r → has_char NLc p = false → rstrip p = p →
  re_cont_in bad = false →
  parse_lines iter cfg generate st ((p +:+ " &" +:+ NL) :: bad :: rest)
  = Exit (Report (infile cfg) (p_linenum st + 1) EmptyString
            "Incorrect line continuation encountered" p).
Proof.
  intros Hl Hp Hnl Hr Hbad.
  change (parse_lines iter cfg generate st (?a :: ?b :: rest))
    with (parse_line iter cfg generate st a ≫= λ s1,
          parse_line iter cfg generate s1 b ≫= λ s2,
          parse_lines iter cfg generate s2 rest).
  erewrite parse_line_continued by done. rewrite bind_Ok_l.
  unfold parse_line. simpl p_line.
  rewrite (bang_truthy _ (ser_prefix_bang _ _ Hp)), Hbad. reflexivity.
Qed.

(** X15: A file that ends on a continued directive, with guards on: the last
    call of the lexer expands the directive that is pending, which opens or
    keeps the guard, and the pass does not end well. *)
Theorem file_ending_in_continuation_rejected generate lines st0 st g st' :
  truthy (ifdef cfg) = true →
  parse_lines iter cfg generate (reset_flags st0) lines = Ok st →
  re_ser_match (p_line st) = Some g → re_def_match (p_line st) = false →
  parse iter cfg generate lines st0 ≠ Ok st'.
Proof.
  intros Hi Hlines Hm Hd H. unfold parse in H. rewrite Hlines, bind_Ok_l in H.
  bind_inv H. clear H.
  assert (bang (p_line st)) as Hb.
  { unfold re_ser_match in Hm. destruct (ser_prefix (p_line st)) eqn:Hp; [|done].
    by eapply ser_prefix_bang. }
  apply lexer_Ok in Hx as (st1 & st2 & st3 & st4 & m & H1 & H2 & H3 & H4 & H5).
  unfold re_module in H1. rewrite bang_not_module in H1 by done.
  apply Ok_inj in H1. subst st1.
  rewrite re_implicit_nomatch in H2 by by apply bang_not_implicit.
  unfold re_endmodule in H2. rewrite bang_not_endmodule in H2 by done.
  apply Ok_inj in H2. subst st2.
  unfold re_def in H3. rewrite Hd in H3. apply Ok_inj in H3. subst st3.
  assert (m = true ∧ p_ser st4 = p_ser st) as [-> Hs].
  { pose proof (re_ser_frame _ _ _ _ H4) as [_ _ _ Hs _ _ _ _ _].
    split; [|done]. unfold re_ser in H4. rewrite Hm in H4.
    destruct (truthy g); [|by apply Ok_inj in H4; simplify_eq].
    destruct (tokenize g); [done|]. bind_inv H4. apply Ok_inj in H4. by simplify_eq. }
  assert (p_ser (guard cfg true st4) = true) as Hg.
  { unfold guard. rewrite Hi. by destruct (p_ser st4) eqn:E. }
  unfold final_check in H5. by rewrite Hg in H5.
Qed.

End ContinuationErrors.

Lemma continuation_broken_witness :
  parse_lines elements cfg0 true init_state
    (("!$SER DATA a=b" +:+ " &" +:+ NL) :: ("  c=d" +:+ NL) :: [])
  = Exit (Report "t.f90" 1 EmptyString
            "Incorrect line continuation encountered" "!$SER DATA a=b").
Proof.
  apply (continuation_broken elements cfg0 true init_state "!$SER DATA a=b" " DATA a=b");
    reflexivity.
Defined.

Lemma file_ending_in_continuation_rejected_witness :
  truthy (ifdef cfg0) = true ∧
  parse elements cfg0 true ["implicit none" +:+ NL; "!$SER ON &" +:+ NL] init_state
  ≠ Ok (set_linenum 2 init_state).
Proof.
  split; [reflexivity|].
  eapply (file_ending_in_continuation_rejected elements cfg0 true _ init_state);
    [reflexivity|vm_compute; reflexivity|vm_compute; reflexivity|vm_compute; reflexivity].
Defined.

(** ** The guard and its markers *)

Lemma startswith_app p s : startswith p (p +:+ s) = true.
Proof.
  induction p as [|c p IH]; [done|]. rewrite sapp_cons. simpl.
  by rewrite Ascii.eqb_refl, IH.
Qed.

Section GuardMarkers.
Context (iter : gset string → list string) (cfg : config).

Lemma lexer_ser final st st' :
  lexer iter cfg final st = Ok st' →
  ∃ st4 m, p_ser st4 = p_ser st ∧ st' = guard cfg m st4.
Proof.
  intros (st1 & st2 & st3 & st4 & m & H1 & H2 & H3 & H4 & H5)%lexer_Ok.
  exists st4, m. split.
  - assert (p_ser st1 = p_ser st) as Hs1
      by by destruct (re_module_same _ _ _ H1) as [->| ->].
    assert (p_ser st2 = p_ser st1) as Hs2.
    { destruct (re_endmodule_same _ _ _ H2) as [->| ->]; simpl;
        by rewrite re_implicit_ser. }
    apply re_def_lists in H3 as (_ & _ & Hs3 & _).
    apply re_ser_frame in H4. destruct H4 as [_ _ _ Hs4 _ _ _ _ _]. congruence.
  - destruct final; [by apply final_check_same in H5|by apply Ok_inj in H5].
Qed.

(** X16: The guard state changes only together with its marker: where the lexer
    sets it, the line it returns starts with the guard-open marker; where
    the lexer clears it, the line starts with the guard-close marker; and
    with guards off it never changes. *)
Theorem guard_change_writes_marker final st st' :
  lexer iter cfg final st = Ok st' →
  (p_ser st = false → p_ser st' = true →
   startswith ("#ifdef " +:+ ifdef cfg +:+ NL) (p_line st') = true) ∧
  (p_ser st = true → p_ser st' = false →
   startswith ("#endif" +:+ NL) (p_line st') = true) ∧
  (truthy (ifdef cfg) = false → p_ser st' = p_ser st).
Proof.
  intros (st4 & m & Hs & ->)%lexer_ser. unfold guard. split_and!.
  - intros H0 H1. rewrite Hs, H0 in *.
    destruct m, (truthy (ifdef cfg)); simpl in H1; try congruence.
    rewrite <- !sapp_assoc. apply startswith_app.
  - intros H0 H1. rewrite Hs, H0 in *.
    destruct m, (truthy (ifdef cfg)); simpl in H1; try congruence.
    rewrite <- sapp_assoc. apply startswith_app.
  - intros ->. by destruct m.
Qed.

End GuardMarkers.

Lemma guard_change_writes_marker_witness :
  ∃ st', lexer elements cfg0 false (set_line ("!$SER ON" +:+ NL) init_state) = Ok st' ∧
    p_ser st' = true ∧
    startswith ("#ifdef SERIALIZE" +:+ NL) (p_line st') = true.
Proof.
  eexists. split; [vm_compute; reflexivity|]. split; [reflexivity|].
  eapply (guard_change_writes_marker elements cfg0 false
            (set_line ("!$SER ON" +:+ NL) init_state));
    [vm_compute; reflexivity|reflexivity|reflexivity].
Defined.

(** ** The fields whose INTENT(IN) is to be removed *)

(** X17: The loop of DATA that records the requests keeps every name recorded
    before and adds the values, without their subscripts, each once. *)
Theorem request_removal_elements to_remove values :
  NoDup to_remove →
  NoDup (request_removal to_remove values) ∧
  ∀ x, x ∈ request_removal to_remove values ↔
       x ∈ to_remove ∨ x ∈ map (λ v, sub_delete paren_greedy v 0) values.
Proof.
  unfold request_removal. revert to_remove.
  induction values as [|v values IH]; intros l Hl; simpl.
  - split; [done|]. intros x. rewrite elem_of_nil. tauto.
  - case_bool_decide as Hv.
    + destruct (IH l Hl) as [Hn He]. split; [done|]. intros x.
      rewrite He, elem_of_cons. split; [tauto|]. intros [?|[->|?]]; auto.
    + destruct (IH (l ++ [sub_delete paren_greedy v 0])) as [Hn He].
      { apply NoDup_app. split_and!; [done| |apply NoDup_singleton].
        intros x Hx ->%list_elem_of_singleton. done. }
      split; [done|]. intros x.
      rewrite He, elem_of_app, list_elem_of_singleton, elem_of_cons. tauto.
Qed.

Lemma request_removal_elements_witness :
  NoDup (request_removal ["u"] ["v(:,:)"; "u(1)"; "v"]) ∧
  request_removal ["u"] ["v(:,:)"; "u(1)"; "v"] = ["u"; "v"].
Proof.
  split; [|reflexivity].
  apply (request_removal_elements ["u"] ["v(:,:)"; "u(1)"; "v"]).
  apply NoDup_singleton.
Defined.

(** ** The import block *)

Section ImportBlock.
Context (iter : gset string → list string) (cfg : config).
Hypothesis iter_perm : ∀ s, iter s ≡ₚ elements s.

(** X18: At an IMPLICIT NONE line, with calls collected and no block written
    yet, the block is written before the line: every call collected so far
    is named once, the helpers of the preprocessor (with the six that are
    always needed) in the import of [utils_ppser], the others in the import
    of the serialization module. *)
Theorem import_block_names_every_call st :
  re_implicit_match (p_line st) = true →
  p_calls st ≠ ∅ → p_implicitnone_done st = false →
  ∃ fs pp,
    fs ++ pp ≡ₚ elements (p_calls st) ∧
    Forall (λ c, startswith "ppser" c = false) fs ∧
    Forall (λ c, startswith "ppser" c = true) pp ∧
    p_implicitnone_done (re_implicit iter cfg st) = true ∧
    p_line (re_implicit iter cfg st) =
      (NL
       +:+ (if truthy (ifdef cfg) then "#ifdef " +:+ ifdef cfg +:+ NL else EmptyString)
       +:+ (if 0 <? length fs then
              "USE " +:+ module cfg +:+ ", ONLY: " +:+ join ", " fs +:+ NL
            else EmptyString)
       +:+ ("USE utils_ppser, ONLY: "
            +:+ join ", " (pp ++ ["ppser_savepoint"; "ppser_serializer";
                                  "ppser_serializer_ref"; "ppser_intlength";
                                  "ppser_reallength"; "ppser_realtype"]) +:+ NL)
       +:+ (if truthy (ifdef cfg) then "#endif" +:+ NL else EmptyString)
       +:+ NL) +:+ p_line st.
Proof.
  intros Hm Hc Hd.
  set (pp := filter (λ c, startswith "ppser" c = true) (iter (p_calls st))).
  set (fs := filter (λ c, startswith "ppser" c ≠ true) (iter (p_calls st))).
  exists fs, pp.
  assert (pp ++ fs ≡ₚ iter (p_calls st)) as Hp
    by apply (filter_app_complement (λ c, startswith "ppser" c = true)).
  assert ((0 <? length pp + length fs) = true) as Hn.
  { apply Nat.ltb_lt. rewrite <- length_app, Hp, iter_perm.
    change (0 < size (p_calls st)).
    destruct (decide (size (p_calls st) = 0)) as [H0|]; [|lia].
    destruct Hc. by apply leibniz_equiv, size_empty_inv. }
  assert ((0 <? length (pp ++ ["ppser_savepoint"; "ppser_serializer";
                               "ppser_serializer_ref"; "ppser_intlength";
                               "ppser_reallength"; "ppser_realtype"])) = true) as Hn'.
  { apply Nat.ltb_lt. rewrite length_app. simpl. lia. }
  split_and!.
  - by rewrite Permutation_app_comm, Hp.
  - apply Forall_forall. intros c [Hx _]%list_elem_of_filter.
    by apply not_true_is_false.
  - apply Forall_forall. by intros c [Hx _]%list_elem_of_filter.
  - unfold re_implicit. rewrite Hm. cbv zeta. fold pp fs.
    rewrite Hn, Hd. reflexivity.
  - unfold re_implicit. rewrite Hm. cbv zeta. fold pp fs.
    rewrite Hn, Hd, Hn'. reflexivity.
Qed.

End ImportBlock.

Lemma import_block_names_every_call_witness :
  ∃ fs pp,
    fs ++ pp ≡ₚ ["fs_write_field"; "ppser_get_mode"] ∧
    p_line (re_implicit elements cfg0
              (set_line ("implicit none" +:+ NL)
                 (add_call "ppser_get_mode" (add_call "fs_write_field" init_state))))
    = (NL +:+ ("#ifdef SERIALIZE" +:+ NL)
       +:+ (if 0 <? length fs then
              "USE m_serialize, ONLY: " +:+ join ", " fs +:+ NL
            else EmptyString)
       +:+ ("USE utils_ppser, ONLY: "
            +:+ join ", " (pp ++ ["ppser_savepoint"; "ppser_serializer";
                                  "ppser_serializer_ref"; "ppser_intlength";
                                  "ppser_reallength"; "ppser_realtype"]) +:+ NL)
       +:+ ("#endif" +:+ NL) +:+ NL) +:+ ("implicit none" +:+ NL).
Proof.
  destruct (import_block_names_every_call elements cfg0 (λ s, reflexivity _)
              (set_line ("implicit none" +:+ NL)
                 (add_call "ppser_get_mode" (add_call "fs_write_field" init_state))))
    as (fs & pp & Hp & _ & _ & _ & Hl).
  - vm_compute. reflexivity.
  - apply (bool_decide_unpack _). vm_compute. exact I.
  - reflexivity.
  - exists fs, pp. split; [|exact Hl].
    rewrite Hp. apply (bool_decide_unpack _). vm_compute. exact I.
Defined.

(** ** A directive and the state it meets

    What a handler does depends on the state only in the report of an
    error, and on the keyword only through the directive it selects. *)

Lemma alike_bind {A B A' B'} (R : A → B → Prop) (R' : A' → B' → Prop)
    (x : result A) (y : result B) (f : A → result A') (g : B → result B') :
  alike R x y → (∀ a b, R a b → alike R' (f a) (g b)) →
  alike R' (x ≫= f) (y ≫= g).
Proof. destruct x, y; simpl; try done. auto. Qed.

Lemma upper_c_lower_c c : upper_c (lower_c c) = upper_c c.
Proof. destruct c as [[] [] [] [] [] [] [] []]; reflexivity. Qed.

Lemma upper_lower s : upper (lower s) = upper s.
Proof.
  induction s as [|c s IH]; [done|].
  unfold upper, lower in *. simpl. by rewrite upper_c_lower_c, IH.
Qed.

Lemma init_not_if a0 : is_kw "init" a0 = true → String.eqb "if" (lower a0) = false.
Proof.
  intros H. destruct (String.eqb_spec "if" (lower a0)) as [E|]; [|done].
  apply bool_decide_eq_true in H. rewrite <- upper_lower, <- E in H.
  revert H. apply (bool_decide_unpack _). vm_compute. exact I.
Qed.

Lemma init_slice a0 rest :
  String.eqb "if" (lower a0) = false →
  slice 1 (default (length (a0 :: rest)) (index_of "if" (map lower (a0 :: rest))))
        (a0 :: rest)
  = take (default (length rest) (index_of "if" (map lower rest))) rest.
Proof.
  intros H.
  change (index_of "if" (map lower (a0 :: rest)))
    with (if String.eqb "if" (lower a0) then Some 0
          else option_map S (index_of "if" (map lower rest))).
  rewrite H. by destruct (index_of "if" (map lower rest)).
Qed.

Lemma foldl_add_calls {A} (f : A → string) (l : list A) st :
  foldl (λ st fa, add_call (f fa) st) st l = foldl (λ s c, add_call c s) st (map f l).
Proof. revert st. induction l as [|a l IH]; intros st; simpl; [done|]. apply IH. Qed.

Lemma effect_calls l cs vs st x :
  x ∈ p_calls (effect l cs vs st) ↔ x ∈ cs ∨ x ∈ p_calls st.
Proof.
  change (p_calls (effect l cs vs st)) with (p_calls (foldl (λ s c, add_call c s) st cs)).
  revert st. induction cs as [|c cs IH]; intros st; simpl.
  - rewrite elem_of_nil. tauto.
  - rewrite IH, elem_of_cons. simpl. rewrite elem_of_union, elem_of_singleton. tauto.
Qed.

Lemma foldl_add_calls_to_remove cs st :
  intentin_to_remove (foldl (λ s c, add_call c s) st cs) = intentin_to_remove st.
Proof. revert st. induction cs as [|c cs IH]; intros st; simpl; [done|]. by rewrite IH. Qed.

Lemma effect_to_remove l cs vs st :
  intentin_to_remove (effect l cs vs st) = request_removal (intentin_to_remove st) vs.
Proof. reflexivity. Qed.

Lemma effect_set_line l cs vs x st : effect l cs vs (set_line x st) = effect l cs vs st.
Proof.
  unfold effect.
  assert (∀ s, foldl (λ s c, add_call c s) (set_line x s) cs
               = set_line x (foldl (λ s c, add_call c s) s cs)) as H.
  { induction cs as [|c cs IH]; intros s; simpl; [done|]. by rewrite <- IH. }
  rewrite H. by destruct (foldl _ st cs).
Qed.

Lemma effect_fold l cs st :
  set_line l (foldl (λ s c, add_call c s) st cs) = effect l cs [] st.
Proof.
  unfold effect. change (request_removal ?x []) with x.
  rewrite <- (foldl_add_calls_to_remove cs st).
  by destruct (foldl (λ s c, add_call c s) st cs).
Qed.

(** Closes a goal [same_effect]: the calls added and the values asked for
    are given, the line is read off the goal. *)
Ltac same_effect_with cs vs :=
  match goal with
  | |- alike (same_effect ?s1 ?s2) (Ok _) (Ok _) =>
      eexists; exists cs, vs; split; [destruct s1|destruct s2]; reflexivity
  end.

Ltac alike_split :=
  repeat match goal with
  | |- alike _ (if ?b then _ else _) (if ?b then _ else _) => destruct b
  | |- alike _ (match ?x with _ => _ end) (match ?x with _ => _ end) => destruct x
  | |- alike _ (exit_error _ _ _ _) (exit_error _ _ _ _) => reflexivity
  | |- alike _ (Raise _) (Raise _) => reflexivity
  end.

Section Uniform.
Context (cfg : config).

Lemma arg_loop_alike s1 s2 d1 d2 l dirs keys values e c :
  alike eq (arg_loop cfg s1 d1 l dirs keys values e c)
           (arg_loop cfg s2 d2 l dirs keys values e c).
Proof.
  revert dirs keys values e c.
  induction l as [|a l IH]; intros dirs keys values e c; [done|].
  cbn [arg_loop].
  destruct (String.eqb (upper a) "IF"); [apply IH|].
  destruct e; [destruct (truthy c); [reflexivity|apply IH]|].
  destruct (split_char "=" a) as [|v0 [|v1 [|v2 vs]]]; [reflexivity|apply IH..|reflexivity].
Qed.

Lemma ser_arg_parse_alike s1 s2 a0 a0' rest :
  alike eq (ser_arg_parse cfg s1 (a0 :: rest)) (ser_arg_parse cfg s2 (a0' :: rest)).
Proof. apply arg_loop_alike. Qed.

Lemma tracer_loop_alike s1 s2 d1 d2 l spec e c :
  alike eq (tracer_loop cfg s1 d1 l spec e c) (tracer_loop cfg s2 d2 l spec e c).
Proof.
  revert spec e c. induction l as [|a l IH]; intros spec e c; [done|].
  cbn [tracer_loop].
  destruct (String.eqb (upper a) "IF"); [apply IH|].
  destruct e; [destruct (truthy c); [reflexivity|apply IH]|].
  destruct (re_tracer_match a); [apply IH|reflexivity].
Qed.

Lemma ser_tracer_parse_alike s1 s2 a0 a0' rest :
  alike eq (ser_tracer_parse cfg s1 (a0 :: rest)) (ser_tracer_parse cfg s2 (a0' :: rest)).
Proof. apply tracer_loop_alike. Qed.

(** Opens a handler at the parse of its arguments. *)
Ltac open_handler :=
  eapply alike_bind; [apply ser_arg_parse_alike|];
  intros [[[d k] v] c] ? <-; cbv beta iota zeta.

Lemma ser_init_alike s1 s2 a0 a0' rest :
  is_kw "init" a0 = true → is_kw "init" a0' = true →
  alike (same_effect s1 s2) (ser_init cfg s1 (a0 :: rest)) (ser_init cfg s2 (a0' :: rest)).
Proof.
  intros H H'. unfold ser_init. open_handler.
  rewrite !init_slice by by apply init_not_if.
  same_effect_with [methods !!! "init" : string] (@nil string).
Qed.

Lemma ser_option_alike s1 s2 a0 a0' rest :
  alike (same_effect s1 s2) (ser_option cfg s1 (a0 :: rest)) (ser_option cfg s2 (a0' :: rest)).
Proof.
  unfold ser_option. open_handler. alike_split.
  same_effect_with [methods !!! "option" : string] (@nil string).
Qed.

Lemma ser_metainfo_alike s1 s2 a0 a0' rest :
  alike (same_effect s1 s2) (ser_metainfo cfg s1 (a0 :: rest))
        (ser_metainfo cfg s2 (a0' :: rest)).
Proof.
  unfold ser_metainfo. open_handler.
  same_effect_with [methods !!! "serinfo" : string] (@nil string).
Qed.

Lemma ser_verbatim_alike s1 s2 a0 a0' rest :
  alike (same_effect s1 s2) (ser_verbatim s1 (a0 :: rest)) (ser_verbatim s2 (a0' :: rest)).
Proof. unfold ser_verbatim. same_effect_with (@nil string) (@nil string). Qed.

Lemma ser_register_alike s1 s2 a0 a0' rest :
  alike (same_effect s1 s2) (ser_register cfg s1 (a0 :: rest))
        (ser_register cfg s2 (a0' :: rest)).
Proof.
  unfold ser_register. open_handler. alike_split.
  all: same_effect_with [methods !!! "register" : string] (@nil string).
Qed.

Lemma ser_registertracers_alike s1 s2 a0 a0' rest :
  alike (same_effect s1 s2) (ser_registertracers s1 (a0 :: rest))
        (ser_registertracers s2 (a0' :: rest)).
Proof.
  unfold ser_registertracers.
  same_effect_with [methods !!! "registertracers" : string] (@nil string).
Qed.

Lemma ser_zero_alike s1 s2 a0 a0' rest :
  alike (same_effect s1 s2) (ser_zero cfg s1 (a0 :: rest)) (ser_zero cfg s2 (a0' :: rest)).
Proof.
  unfold ser_zero. open_handler. alike_split.
  same_effect_with (@nil string) (@nil string).
Qed.

Lemma ser_savepoint_alike s1 s2 a0 a0' rest :
  alike (same_effect s1 s2) (ser_savepoint cfg s1 (a0 :: rest))
        (ser_savepoint cfg s2 (a0' :: rest)).
Proof.
  unfold ser_savepoint. open_handler.
  destruct d as [|name [|? ?]]; [reflexivity| |reflexivity].
  same_effect_with [methods !!! "savepoint" : string; methods !!! "spinfo" : string]
                   (@nil string).
Qed.

Lemma ser_mode_alike s1 s2 a0 a0' rest :
  alike (same_effect s1 s2) (ser_mode cfg s1 (a0 :: rest)) (ser_mode cfg s2 (a0' :: rest)).
Proof.
  unfold ser_mode. cbv zeta. open_handler.
  change ((a0 :: rest) !! 1) with (rest !! 0).
  change ((a0' :: rest) !! 1) with (rest !! 0).
  destruct (rest !! 0); [|reflexivity].
  same_effect_with [methods !!! "mode" : string] (@nil string).
Qed.

Lemma ser_data_alike s1 s2 a0 a0' rest :
  alike (same_effect s1 s2) (ser_data cfg s1 (a0 :: rest)) (ser_data cfg s2 (a0' :: rest)).
Proof.
  unfold ser_data. open_handler.
  match goal with
  | |- alike _ (if ?b then _ else _) _ => destruct b; [reflexivity|]
  end.
  destruct (bool_decide ("removeintentin" ∈ d)).
  - same_effect_with [methods !!! "datawrite" : string; methods !!! "dataread" : string;
                      methods !!! "getmode" : string] v.
  - same_effect_with [methods !!! "datawrite" : string; methods !!! "dataread" : string;
                      methods !!! "getmode" : string] (@nil string).
Qed.

Lemma ser_tracer_alike s1 s2 a0 a0' rest :
  alike (same_effect s1 s2) (ser_tracer cfg s1 (a0 :: rest)) (ser_tracer cfg s2 (a0' :: rest)).
Proof.
  unfold ser_tracer.
  eapply alike_bind; [apply ser_tracer_parse_alike|].
  intros [spec c] ? <-. cbv beta iota zeta.
  rewrite (foldl_add_calls fst _ s1), (foldl_add_calls fst _ s2).
  eexists. exists (map fst (map tracer_call spec)), []. split; apply effect_fold.
Qed.

Lemma ser_cleanup_alike s1 s2 a0 a0' rest :
  alike (same_effect s1 s2) (ser_cleanup s1 (a0 :: rest)) (ser_cleanup s2 (a0' :: rest)).
Proof.
  unfold ser_cleanup. same_effect_with [methods !!! "cleanup" : string] (@nil string).
Qed.

Lemma ser_on_alike s1 s2 a0 a0' rest :
  alike (same_effect s1 s2) (ser_on s1 (a0 :: rest)) (ser_on s2 (a0' :: rest)).
Proof. unfold ser_on. same_effect_with [methods !!! "on" : string] (@nil string). Qed.

Lemma ser_off_alike s1 s2 a0 a0' rest :
  alike (same_effect s1 s2) (ser_off s1 (a0 :: rest)) (ser_off s2 (a0' :: rest)).
Proof. unfold ser_off. same_effect_with [methods !!! "off" : string] (@nil string). Qed.

Lemma tokenize_cons_truthy g a0 rest : tokenize g = a0 :: rest → truthy g = true.
Proof. by destruct g. Qed.

(** Two directive lines with the same arguments, whose keywords select the
    same directive, in any two states. *)
Lemma re_ser_alike s1 s2 g g' a0 a0' rest :
  re_ser_match (p_line s1) = Some g → tokenize g = a0 :: rest →
  re_ser_match (p_line s2) = Some g' → tokenize g' = a0' :: rest →
  Forall (λ k, is_kw k a0 = is_kw k a0') dispatch_keys →
  alike (λ x y, same_effect s1 s2 x.1 y.1 ∧ x.2 = y.2) (re_ser cfg s1) (re_ser cfg s2).
Proof.
  intros Hm Ht Hm' Ht' Hk. unfold re_ser.
  rewrite Hm, Hm', (tokenize_cons_truthy _ _ _ Ht), (tokenize_cons_truthy _ _ _ Ht'), Ht, Ht'.
  eapply alike_bind with (R := same_effect s1 s2); [|by intros a b Hab].
  assert (is_kw "init" a0 = is_kw "init" a0') as Hi
    by by apply Forall_cons in Hk as [? _].
  unfold dispatch_keys in Hk.
  repeat match type of Hk with
  | Forall _ (_ :: _) => apply Forall_cons in Hk as [<- Hk]
  end.
  destruct (is_kw "init" a0) eqn:Hinit.
  { apply ser_init_alike; [done|by rewrite <- Hi]. }
  destruct (is_kw "option" a0); [apply ser_option_alike|].
  destruct (is_kw "metainfo" a0); [apply ser_metainfo_alike|].
  destruct (is_kw "verbatim" a0); [apply ser_verbatim_alike|].
  destruct (is_kw "register" a0); [apply ser_register_alike|].
  destruct (is_kw "savepoint" a0); [apply ser_savepoint_alike|].
  destruct (is_kw "zero" a0); [apply ser_zero_alike|].
  destruct (is_kw "data" a0); [apply ser_data_alike|].
  destruct (is_kw "tracer" a0); [apply ser_tracer_alike|].
  destruct (is_kw "registertracers" a0); [apply ser_registertracers_alike|].
  destruct (is_kw "cleanup" a0); [apply ser_cleanup_alike|].
  destruct (is_kw "on" a0); [apply ser_on_alike|].
  destruct (is_kw "off" a0); [apply ser_off_alike|].
  destruct (is_kw "mode" a0); [apply ser_mode_alike|].
  reflexivity.
Qed.

End Uniform.

(** ** The spelling of the keyword *)

(** X19: Two directive lines with the same arguments, whose keywords select the
    same directive (in any case, in full or abbreviated), are expanded the
    same way: the same state is returned, or an error with the same message
    is reported, or the same exception is raised. *)
Theorem keyword_spelling_irrelevant cfg st x g g' a0 a0' rest :
  re_ser_match (p_line st) = Some g → tokenize g = a0 :: rest →
  re_ser_match x = Some g' → tokenize g' = a0' :: rest →
  Forall (λ k, is_kw k a0 = is_kw k a0') dispatch_keys →
  alike eq (re_ser cfg st) (re_ser cfg (set_line x st)).
Proof.
  intros Hm Ht Hm' Ht' Hk.
  pose proof (re_ser_alike cfg st (set_line x st) g g' a0 a0' rest Hm Ht Hm' Ht' Hk) as H.
  destruct (re_ser cfg st) as [[r m]| |], (re_ser cfg (set_line x st)) as [[r' m']| |];
    try done.
  simpl in H. destruct H as [(l & cs & vs & -> & ->) ->].
  simpl. by rewrite effect_set_line.
Qed.

Lemma keyword_spelling_irrelevant_witness :
  alike eq
    (re_ser cfg0 (set_line ("!$SER SAVEPOINT a k=1" +:+ NL) init_state))
    (re_ser cfg0 (set_line ("  !$ser sav a k=1" +:+ NL)
                    (set_line ("!$SER SAVEPOINT a k=1" +:+ NL) init_state))).
Proof.
  apply (keyword_spelling_irrelevant cfg0
           (set_line ("!$SER SAVEPOINT a k=1" +:+ NL) init_state)
           ("  !$ser sav a k=1" +:+ NL)
           "SAVEPOINT a k=1" "sav a k=1" "SAVEPOINT" "sav" ["a"; "k=1"]);
    [vm_compute; reflexivity..|].
  apply (bool_decide_unpack _). vm_compute. exact I.
Defined.

(** ** The two passes *)

Lemma request_removal_incl l vs : l ⊆ request_removal l vs.
Proof.
  unfold request_removal. revert l.
  induction vs as [|v vs IH]; intros l; simpl; [done|].
  case_bool_decide; [apply IH|].
  etrans; [|apply IH]. intros x Hx. apply elem_of_app. by left.
Qed.

Lemma request_removal_known l vs :
  (∀ v, v ∈ vs → sub_delete paren_greedy v 0 ∈ l) → request_removal l vs = l.
Proof.
  unfold request_removal.
  induction vs as [|v vs IH]; intros H; simpl; [done|].
  rewrite bool_decide_eq_true_2 by (apply H; left).
  apply IH. intros w Hw. apply H. by right.
Qed.

Lemma request_removal_has l vs v :
  v ∈ vs → sub_delete paren_greedy v 0 ∈ request_removal l vs.
Proof.
  unfold request_removal. revert l.
  induction vs as [|w vs IH]; intros l Hv; [by apply elem_of_nil in Hv|].
  simpl. apply elem_of_cons in Hv as [->|Hv]; [|by apply IH].
  apply (request_removal_incl _ vs). case_bool_decide; [done|].
  apply elem_of_app. right. by left.
Qed.

Lemma ser_not_after_line_feed w : re_ser_match (String NLc w) = None.
Proof. reflexivity. Qed.

Lemma ser_not_after_hash w : re_ser_match (String "#" w) = None.
Proof. reflexivity. Qed.

Section TwoPasses.
Context (iter : gset string → list string) (cfg : config).

Lemma re_ser_same_line s1 s2 :
  p_line s1 = p_line s2 →
  alike (λ x y, same_effect s1 s2 x.1 y.1 ∧ x.2 = y.2) (re_ser cfg s1) (re_ser cfg s2).
Proof.
  intros Hl. destruct (re_ser_match (p_line s1)) as [g|] eqn:Hm.
  - destruct (tokenize g) as [|a0 rest] eqn:Ht.
    + unfold re_ser. rewrite <- Hl, Hm, Ht.
      destruct (truthy g); [done|]. simpl. split; [|done].
      exists (p_line s1), [], []. split; [by destruct s1|rewrite Hl; by destruct s2].
    + eapply re_ser_alike; [done..|rewrite <- Hl; done|done|].
      apply Forall_forall. done.
  - unfold re_ser. rewrite <- Hl, Hm. simpl. split; [|done].
    exists (p_line s1), [], []. split; [by destruct s1|rewrite Hl; by destruct s2].
Qed.

Lemma re_implicit_line st :
  p_line (re_implicit iter cfg st) = p_line st ∨
  ∃ w, p_line (re_implicit iter cfg st) = String NLc w.
Proof.
  unfold re_implicit. destruct (re_implicit_match (p_line st)); [|by left].
  cbv zeta.
  match goal with
  | |- context [if ?b then set_done _ _ else _] => destruct b
  end; [right; by eexists|by left].
Qed.

Lemma re_def_line st st' :
  re_def cfg st = Ok st' →
  p_line st' = p_line st ∨ ∃ w, p_line st' = String "#" w.
Proof.
  unfold re_def. intros H.
  destruct (re_def_match (p_line st)); [|apply Ok_inj in H; subst; by left].
  destruct (split_dcolon (p_line st) !! 1) as [decl|]; [|done].
  cbv zeta in H.
  match type of H with
  | match ?f with _ => _ end = _ => destruct f
  end; apply Ok_inj in H; subst; [by left|right; by eexists].
Qed.

(** A declaration that the second pass leaves as it is was left as it is
    by the first, which had fewer requests. *)
Lemma re_def_lockstep s1 s2 s1' s2' :
  p_line s1 = p_line s2 → intentin_to_remove s1 ⊆ intentin_to_remove s2 →
  re_def cfg s1 = Ok s1' → re_def cfg s2 = Ok s2' →
  p_line s2' = p_line s2 → re_ser_match (p_line s2) ≠ None → p_line s1' = p_line s1.
Proof.
  unfold re_def. intros Hl Hsub H1 H2 Hsame Hser. rewrite Hl in H1.
  destruct (re_def_match (p_line s2)); [|apply Ok_inj in H1; by subst].
  destruct (split_dcolon (p_line s2) !! 1) as [decl|]; [|done].
  cbv zeta in H1, H2.
  set (var := map (λ x, sub_delete paren_lazy x 0)
                (map (λ x, remove_spaces (strip x)) (split_commas decl))) in *.
  destruct (filter (λ x, x ∈ var) (intentin_to_remove s2)) as [|f2 fs2] eqn:Hf2.
  - assert (filter (λ x, x ∈ var) (intentin_to_remove s1) = []) as Hf0.
    { destruct (filter (λ x, x ∈ var) (intentin_to_remove s1)) as [|f1 fs1] eqn:Hf1; [done|].
      assert (f1 ∈ filter (λ x, x ∈ var) (intentin_to_remove s1)) as Hin
        by (rewrite Hf1; left).
      apply list_elem_of_filter in Hin as [Hv Hin].
      assert (f1 ∈ filter (λ x, x ∈ var) (intentin_to_remove s2)) as Hin2
        by (apply list_elem_of_filter; auto).
      rewrite Hf2 in Hin2. by apply elem_of_nil in Hin2. }
    rewrite Hf0 in H1. apply Ok_inj in H1. by subst.
  - apply Ok_inj in H2. subst s2'. simpl in Hsame. destruct Hser.
    rewrite <- Hsame. apply ser_not_after_hash.
Qed.

Lemma lexer_to_remove final st st' :
  lexer iter cfg final st = Ok st' →
  intentin_to_remove st ⊆ intentin_to_remove st'.
Proof.
  intros (st1 & st2 & st3 & st4 & m & H1 & H2 & H3 & H4 & H5)%lexer_Ok.
  assert (intentin_to_remove st1 = intentin_to_remove st) as E1
    by by destruct (re_module_same _ _ _ H1) as [->| ->].
  assert (intentin_to_remove st2 = intentin_to_remove st1) as E2.
  { destruct (re_endmodule_same _ _ _ H2) as [->| ->]; simpl;
      by rewrite re_implicit_to_remove. }
  apply re_def_lists in H3 as (_ & E3 & _).
  apply re_ser_frame in H4. destruct H4 as [_ [vs E4] _ _ _ _ _ _ _].
  assert (intentin_to_remove st' = intentin_to_remove st4) as ->.
  { destruct (guard_same cfg m st4) as (_ & Eg & _).
    destruct final; [apply final_check_same in H5|apply Ok_inj in H5]; by subst. }
  rewrite E4, E3, E2, E1. apply request_removal_incl.
Qed.

Lemma parse_line_to_remove generate st line st' :
  parse_line iter cfg generate st line = Ok st' →
  intentin_to_remove st ⊆ intentin_to_remove st'.
Proof.
  unfold parse_line. intros H. bind_inv H.
  match type of H with (if ?b then _ else _) = _ => destruct b end.
  - apply Ok_inj in H. by subst.
  - bind_inv H. apply Ok_inj in H. subst st'.
    apply lexer_to_remove in Hx0. by destruct generate.
Qed.

Lemma parse_lines_to_remove generate lines st st' :
  parse_lines iter cfg generate st lines = Ok st' →
  intentin_to_remove st ⊆ intentin_to_remove st'.
Proof.
  revert st. induction lines as [|line lines IH]; intros st H; simpl in H.
  - apply Ok_inj in H. by subst.
  - bind_inv H. etrans; [by eapply parse_line_to_remove|by apply IH].
Qed.

(** One call of the lexer in each pass, on the same line: what the second
    adds to the calls the first has added too, and it asks for no removal
    that the first has not asked for. *)
Lemma lexer_lockstep f1 f2 s1 s2 s1' s2' :
  lexer iter cfg f1 s1 = Ok s1' → lexer iter cfg f2 s2 = Ok s2' →
  p_line s1 = p_line s2 →
  intentin_to_remove s1' ⊆ intentin_to_remove s2 →
  p_calls s2' ⊆ p_calls s2 ∪ p_calls s1' ∧
  intentin_to_remove s2' = intentin_to_remove s2.
Proof.
  intros Hlex1 Hlex2 Hl Hsub.
  pose proof (lexer_to_remove _ _ _ Hlex1) as Hmono.
  apply lexer_Ok in Hlex1 as (a1 & b1 & c1 & d1 & m1 & A1 & B1 & C1 & D1 & E1).
  apply lexer_Ok in Hlex2 as (a2 & b2 & c2 & d2 & m2 & A2 & B2 & C2 & D2 & E2).
  (* what the steps before the directive keep *)
  assert (p_calls a2 = p_calls s2 ∧ intentin_to_remove a2 = intentin_to_remove s2 ∧
          p_line a2 = p_line s2) as (Ca2 & Ta2 & La2)
    by by destruct (re_module_same _ _ _ A2) as [->| ->].
  assert (intentin_to_remove a1 = intentin_to_remove s1 ∧ p_line a1 = p_line s1)
    as (Ta1 & La1) by by destruct (re_module_same _ _ _ A1) as [->| ->].
  assert (p_calls b2 = p_calls a2 ∧ intentin_to_remove b2 = intentin_to_remove a2 ∧
          p_line b2 = p_line (re_implicit iter cfg a2)) as (Cb2 & Tb2 & Lb2).
  { destruct (re_endmodule_same _ _ _ B2) as [->| ->]; simpl;
      by rewrite re_implicit_calls, re_implicit_to_remove. }
  assert (intentin_to_remove b1 = intentin_to_remove a1 ∧
          p_line b1 = p_line (re_implicit iter cfg a1)) as (Tb1 & Lb1).
  { destruct (re_endmodule_same _ _ _ B1) as [->| ->]; simpl;
      by rewrite re_implicit_to_remove. }
  pose proof (re_def_lists _ _ _ C2) as (Cc2 & Tc2 & _).
  pose proof (re_def_lists _ _ _ C1) as (_ & Tc1 & _).
  assert (p_calls s2' = p_calls d2 ∧ intentin_to_remove s2' = intentin_to_remove d2)
    as (-> & ->).
  { destruct (guard_same cfg m2 d2) as (Eg & Eg' & _).
    destruct f2; [apply final_check_same in E2|apply Ok_inj in E2]; by subst. }
  assert (p_calls s1' = p_calls d1 ∧ intentin_to_remove s1' = intentin_to_remove d1)
    as (-> & Ts1).
  { destruct (guard_same cfg m1 d1) as (Eg & Eg' & _).
    destruct f1; [apply final_check_same in E1|apply Ok_inj in E1]; by subst. }
  rewrite Ts1 in Hsub.
  destruct (re_ser_match (p_line c2)) as [g|] eqn:M2.
  2:{ unfold re_ser in D2. rewrite M2 in D2. apply Ok_inj in D2. simplify_eq.
      split; [|congruence]. rewrite Cc2, Cb2, Ca2. apply union_subseteq_l. }
  (* the second pass meets a directive: the line is the one that was read *)
  assert (p_line c2 = p_line b2) as Lc2.
  { destruct (re_def_line _ _ C2) as [|[w Hw]]; [done|].
    by rewrite Hw, ser_not_after_hash in M2. }
  assert (p_line b2 = p_line s2) as Lb2'.
  { rewrite Lb2. destruct (re_implicit_line a2) as [->|[w Hw]]; [done|].
    by rewrite Lc2, Lb2, Hw, ser_not_after_line_feed in M2. }
  assert (p_line b1 = p_line s1) as Lb1'.
  { rewrite Lb1, re_implicit_nomatch; [done|].
    rewrite La1, Hl, <- Lb2', <- Lc2. apply bang_not_implicit.
    unfold re_ser_match in M2. destruct (ser_prefix (p_line c2)) eqn:Hp; [|done].
    by eapply ser_prefix_bang. }
  assert (p_line c1 = p_line c2) as Lc.
  { rewrite Lc2, Lb2', <- Hl, <- Lb1'.
    eapply (re_def_lockstep b1 b2); [congruence| |done..|congruence|].
    - rewrite Tb1, Ta1, Tb2, Ta2. etrans; [exact Hmono|].
      by rewrite Ts1.
    - rewrite <- Lc2, M2. done. }
  pose proof (re_ser_same_line c1 c2 Lc) as Hs. rewrite D1, D2 in Hs.
  simpl in Hs. destruct Hs as [(l & cs & vs & -> & ->) _].
  rewrite effect_to_remove in Hsub. rewrite effect_to_remove.
  split.
  - intros x [Hx|Hx]%effect_calls; apply elem_of_union.
    + right. apply effect_calls. by left.
    + left. by rewrite <- Ca2, <- Cb2, <- Cc2.
  - rewrite Tc2, Tb2, Ta2. apply request_removal_known.
    intros v Hv. apply Hsub. by apply request_removal_has.
Qed.

Lemma parse_line_lockstep s1 s2 line s1' s2' :
  parse_line iter cfg false s1 line = Ok s1' →
  parse_line iter cfg true s2 line = Ok s2' →
  p_line s1 = p_line s2 →
  intentin_to_remove s1' ⊆ intentin_to_remove s2 →
  p_calls s2' ⊆ p_calls s2 ∪ p_calls s1' ∧
  intentin_to_remove s2' = intentin_to_remove s2 ∧
  p_line s1' = p_line s2'.
Proof.
  unfold parse_line. intros H1 H2 Hl Hsub. rewrite Hl in H1.
  bind_inv H1. bind_inv H2.
  assert (x0 = x) as ->.
  { destruct (truthy (p_line s2)); [destruct (re_cont_in line); [|done]|]; congruence. }
  simpl p_line in H1, H2.
  destruct (re_cont_out (p_line s2 +:+ x)).
  - apply Ok_inj in H1, H2. subst. simpl. split_and!; [apply union_subseteq_l|done..].
  - bind_inv H1. bind_inv H2. apply Ok_inj in H1, H2. subst s1' s2'. simpl in *.
    edestruct (lexer_lockstep false false) as [Hc Ht]; [exact Hx1|exact Hx2|done..|].
    done.
Qed.

Lemma parse_lines_lockstep lines s1 s2 s1' s2' :
  parse_lines iter cfg false s1 lines = Ok s1' →
  parse_lines iter cfg true s2 lines = Ok s2' →
  p_line s1 = p_line s2 →
  intentin_to_remove s1' ⊆ intentin_to_remove s2 →
  p_calls s2' ⊆ p_calls s2 ∪ p_calls s1' ∧
  intentin_to_remove s2' = intentin_to_remove s2 ∧
  p_line s1' = p_line s2'.
Proof.
  revert s1 s2. induction lines as [|line lines IH]; intros s1 s2 H1 H2 Hl Hsub;
    simpl in H1, H2.
  - apply Ok_inj in H1, H2. subst. split_and!; [apply union_subseteq_l|done..].
  - bind_inv H1. bind_inv H2. rename x into t1, x0 into t2.
    pose proof (parse_lines_to_remove _ _ _ _ H1) as Hm.
    pose proof (parse_lines_calls _ _ _ _ _ _ H1) as Hc.
    destruct (parse_line_lockstep _ _ _ _ _ Hx Hx0 Hl) as (Hc1 & Ht1 & Hl1);
      [by etrans|].
    destruct (IH _ _ H1 H2 Hl1) as (Hc2 & Ht2 & Hl2); [by rewrite Ht1|].
    split_and!; [|congruence|done].
    intros y Hy. apply Hc2 in Hy. apply elem_of_union in Hy as [Hy|Hy].
    + apply Hc1 in Hy. apply elem_of_union in Hy as [Hy|Hy]; apply elem_of_union; auto.
    + apply elem_of_union; auto.
Qed.

End TwoPasses.

(** X20: The pass that writes the output changes neither the calls nor the
    requests that the analysis has collected from the same lines: every
    call that an expansion uses is already there when the import block is
    written, and every request when the first declaration is met. *)
Theorem generation_pass_collects_nothing iter cfg lines st0 st1 st2 :
  parse iter cfg false lines st0 = Ok st1 →
  parse iter cfg true lines st1 = Ok st2 →
  p_calls st2 = p_calls st1 ∧ intentin_to_remove st2 = intentin_to_remove st1.
Proof.
  intros H1 H2. pose proof (parse_calls _ _ _ _ _ _ H2) as Hsup.
  unfold parse in H1, H2.
  bind_inv H1. bind_inv H1. apply check_removed_same in H1. subst st1.
  bind_inv H2. bind_inv H2. apply check_removed_same in H2. subst st2.
  rename x into u1, x0 into v1, x1 into u2, x2 into v2.
  pose proof (lexer_to_remove _ _ _ _ _ Hx0) as Hm.
  pose proof (lexer_calls _ _ _ _ _ Hx0) as Hc.
  destruct (parse_lines_lockstep _ _ _ _ _ _ _ Hx Hx1) as (Hc1 & Ht1 & Hl1);
    [done|exact Hm|].
  destruct (lexer_lockstep _ _ _ _ _ _ _ _ Hx0 Hx2 Hl1) as (Hc2 & Ht2);
    [by rewrite Ht1|].
  split; [|by rewrite Ht2, Ht1].
  apply leibniz_equiv. apply set_equiv_subseteq. split; [|done].
  intros y Hy. apply Hc2 in Hy. apply elem_of_union in Hy as [Hy|Hy]; [|done].
  apply Hc1 in Hy. apply elem_of_union in Hy as [Hy|Hy]; [done|by apply Hc].
Qed.

Lemma generation_pass_collects_nothing_witness :
  ∃ st1 st2,
    parse elements cfg0 false
      ["implicit none" +:+ NL; "real, intent(in) :: v(:)" +:+ NL;
       "!$SER DATA removeintentin x=v(:)" +:+ NL; "x = 1" +:+ NL] init_state = Ok st1 ∧
    parse elements cfg0 true
      ["implicit none" +:+ NL; "real, intent(in) :: v(:)" +:+ NL;
       "!$SER DATA removeintentin x=v(:)" +:+ NL; "x = 1" +:+ NL] st1 = Ok st2 ∧
    p_calls st2 = p_calls st1 ∧ intentin_to_remove st2 = intentin_to_remove st1.
Proof.
  eexists _, _. split; [vm_compute; reflexivity|]. split; [vm_compute; reflexivity|].
  eapply (generation_pass_collects_nothing elements cfg0
            ["implicit none" +:+ NL; "real, intent(in) :: v(:)" +:+ NL;
             "!$SER DATA removeintentin x=v(:)" +:+ NL; "x = 1" +:+ NL] init_state);
    vm_compute; reflexivity.
Defined.
